(** * Credit valuation system: the calculation engine and its input models

    A shallow embedding of [credit_valuation/models.py],
    [credit_valuation/engine.py] and the loader of [credit_valuation/io.py],
    in two readings of Python's [float].

    In the modules [Pandas], [Models], [Engine], [Tables] and [Io] a float is
    a real number: they describe the calculation in exact arithmetic, the
    idealisation in which its identities (conservation, running sums,
    products of survival factors) hold exactly.  A pandas [DataFrame] is a
    mutable object; the engine's stages copy the frame they receive and assign
    columns to the copy, so frames live in an explicit object store and the
    stages are programs of a state-and-exception monad over that store.

    In the module [Binary64] a float is an IEEE-754 binary64 value, as in the
    running code: the validators and the column arithmetic with every
    operation rounded.  It is where the statements that depend on rounding
    are settled. *)

From Stdlib Require Import Reals Lra ZArith Lia String List.
From stdpp Require Import gmap strings list fin_maps.
From Stdlib Require Floats.

Local Open Scope string_scope.

(** ** Results and exceptions *)

Inductive result (E A : Type) : Type :=
| Ok (a : A)
| Raise (e : E).
Arguments Ok {E A} a.
Arguments Raise {E A} e.

(** ** The part of pandas the engine uses *)

Module Pandas.

(** A [Series] over a [RangeIndex]: the values in row order, each [float64]
    entry read as the real number it stands for and each operation as the
    exact one (module [Binary64] has the rounded ones).  Integer columns
    ([period], [num_accounts]) are stored through [IZR]; every operation the
    engine applies to them promotes to float anyway. *)
Abbreviation Series := (list R).

(** A frame over [RangeIndex(index)]; [columns] keeps the column order. *)
Record DataFrame := mkDataFrame {
  index : nat;
  columns : list (string * Series)
}.

Definition ref := nat.

Inductive exn :=
| KeyError (key : string)
| IndexError
| ZeroDivisionError
| Dangling (r : ref).

(** Association lists keyed by strings: a [dict], and a frame's columns. *)
Fixpoint assoc {A} (k : string) (l : list (string * A)) : option A :=
  match l with
  | [] => None
  | (k', v) :: l' => if String.eqb k k' then Some v else assoc k l'
  end.

(** Assigning to an existing key keeps its position, a new key goes last. *)
Fixpoint assign {A} (k : string) (v : A) (l : list (string * A))
  : list (string * A) :=
  match l with
  | [] => [(k, v)]
  | (k', v') :: l' =>
      if String.eqb k k' then (k, v) :: l' else (k', v') :: assign k v l'
  end.

Definition names (df : DataFrame) : list string := map fst (columns df).

Definition set_column (df : DataFrame) (c : string) (s : Series) : DataFrame :=
  {| index := index df; columns := assign c s (columns df) |}.

(** [pd.DataFrame(rows)] for a list of dicts that all have the keys of the
    first one (the engine passes [model_dump()] of one model class).  An
    empty list gives a frame with no rows and no columns. *)
Definition of_records (rows : list (list (string * R))) : DataFrame :=
  {| index := length rows;
     columns :=
       match rows with
       | [] => []
       | r0 :: _ =>
           map (fun k => (k, map (fun r => default 0%R (assoc k r)) rows))
               (map fst r0)
       end |}.

(** *** Series arithmetic (element-wise on a shared index) *)

Definition rsub (x : R) (s : Series) : Series := map (fun y => (x - y)%R) s.
Definition radd (x : R) (s : Series) : Series := map (fun y => (x + y)%R) s.
Definition rtruediv (x : R) (s : Series) : Series := map (fun y => (x / y)%R) s.
Definition truediv (s : Series) (x : R) : Series := map (fun y => (y / x)%R) s.
Definition add (a b : Series) : Series := zip_with Rplus a b.
Definition sub (a b : Series) : Series := zip_with Rminus a b.
Definition mul (a b : Series) : Series := zip_with Rmult a b.
(** [a ** b]; the engine's bases are [1 + discount_rate], positive on every
    validated input, where float power is the real power. *)
Definition pow (a b : Series) : Series := zip_with Rpower a b.

(** Running fold, the second and later entries of [cumsum] / [cumprod]. *)
Fixpoint accumulate (op : R -> R -> R) (acc : R) (s : Series) : Series :=
  match s with
  | [] => []
  | x :: s' => op acc x :: accumulate op (op acc x) s'
  end.

Definition cumprod (s : Series) : Series :=
  match s with
  | [] => []
  | x :: s' => x :: accumulate Rmult x s'
  end.

Definition cumsum (s : Series) : Series :=
  match s with
  | [] => []
  | x :: s' => x :: accumulate Rplus x s'
  end.

(** [s.shift(1, fill_value=fill)]: same length, values moved down a row. *)
Definition shift1 (fill : R) (s : Series) : Series :=
  firstn (length s) (fill :: s).

(** [s.sum()], zero on an empty series. *)
Definition sum (s : Series) : R := fold_left Rplus s 0%R.

(** *** The object store and its monad *)

Definition M (A : Type) : Type :=
  gmap ref DataFrame -> result exn A * gmap ref DataFrame.

Definition ret {A} (a : A) : M A := fun h => (Ok a, h).

Definition bind {A B} (m : M A) (k : A -> M B) : M B :=
  fun h =>
    match m h with
    | (Ok a, h') => k a h'
    | (Raise e, h') => (Raise e, h')
    end.

Definition raise {A} (e : exn) : M A := fun h => (Raise e, h).

Definition alloc (df : DataFrame) : M ref :=
  fun h => let r := fresh (dom h) in (Ok r, <[r := df]> h).

Definition deref (r : ref) : M DataFrame :=
  fun h =>
    match h !! r with
    | Some df => (Ok df, h)
    | None => (Raise (Dangling r), h)
    end.

Definition update (r : ref) (df : DataFrame) : M unit :=
  fun h => (Ok tt, <[r := df]> h).

(** [pd.DataFrame(rows)] *)
Definition DataFrame_new (rows : list (list (string * R))) : M ref :=
  alloc (of_records rows).

(** [df.copy()]: a new object with the same index and data. *)
Definition copy (r : ref) : M ref :=
  bind (deref r) alloc.

(** [df[c]] *)
Definition getitem (r : ref) (c : string) : M Series :=
  bind (deref r) (fun df =>
    match assoc c (columns df) with
    | Some s => ret s
    | None => raise (KeyError c)
    end).

(** [df[c] = s] for a series on the frame's index *)
Definition setitem (r : ref) (c : string) (s : Series) : M unit :=
  bind (deref r) (fun df => update r (set_column df c s)).

(** [df[c] = x] for a scalar: broadcast over the index *)
Definition setitem_scalar (r : ref) (c : string) (x : R) : M unit :=
  bind (deref r) (fun df => update r (set_column df c (replicate (index df) x))).

(** [s.iloc[-1]] *)
Definition iloc_last (s : Series) : M R :=
  match last s with
  | Some x => ret x
  | None => raise IndexError
  end.

(** [len(df)] *)
Definition len (r : ref) : M nat :=
  bind (deref r) (fun df => ret (index df)).

End Pandas.

Notation "x <~ m ;; k" := (Pandas.bind m (fun x => k))
  (at level 90, m at level 80, right associativity).
Notation "m ;;; k" := (Pandas.bind m (fun _ => k))
  (at level 90, right associativity).

(** ** models.py: the validated input and output records *)

Module Models.

(** The pieces of a formatted message: literal text, the [repr] of a float
    and the [repr] of a list of ints. *)
Inductive fragment :=
| Text (s : string)
| FloatRepr (x : R)
| IntListRepr (l : list Z).

(** One entry of a pydantic [ValidationError]: a [Field] constraint that
    failed at [loc], or a [ValueError] raised by a model validator. *)
Inductive error_detail :=
| FieldError (loc : string) (constraint : string)
| ValueError (msg : list fragment).

Abbreviation ValidationError := (list error_detail).

Definition ge (loc : string) (x bound : R) : ValidationError :=
  if Rge_dec x bound then [] else [FieldError loc "greater_than_equal"].
Definition le (loc : string) (x bound : R) : ValidationError :=
  if Rle_dec x bound then [] else [FieldError loc "less_than_equal"].
Definition int_ge (loc : string) (x bound : Z) : ValidationError :=
  if Z.geb x bound then [] else [FieldError loc "greater_than_equal"].
Definition int_le (loc : string) (x bound : Z) : ValidationError :=
  if Z.leb x bound then [] else [FieldError loc "less_than_equal"].
Definition int_gt (loc : string) (x bound : Z) : ValidationError :=
  if Z.gtb x bound then [] else [FieldError loc "greater_than"].

Record PeriodData := mkPeriodData {
  period : Z;
  prob_charge_off : R;
  prob_attrition : R;
  revolving_balance : R;
  purchase_amount : R;
  finance_charge_rate : R;
  other_fees : R
}.

(** The sum is the exact one here; the code compares the rounded binary64
    sum, which [Binary64._competing_risks_valid] does. *)
Definition _competing_risks_valid (self : PeriodData)
  : result ValidationError PeriodData :=
  if Rgt_dec (prob_charge_off self + prob_attrition self) 1 then
    Raise [ValueError
             [Text "prob_charge_off ("; FloatRepr (prob_charge_off self);
              Text ") + prob_attrition ("; FloatRepr (prob_attrition self);
              Text ") exceeds 1.0"]]
  else Ok self.

(** [PeriodData(period=..., ...)]: the field constraints, then the
    [mode="after"] validator when every field passed. *)
Definition PeriodData_init (period : Z)
    (prob_charge_off prob_attrition revolving_balance purchase_amount
     finance_charge_rate other_fees : R)
  : result ValidationError PeriodData :=
  match (int_ge "period" period 1 ++ int_le "period" period 60
         ++ ge "prob_charge_off" prob_charge_off 0
         ++ le "prob_charge_off" prob_charge_off 1
         ++ ge "prob_attrition" prob_attrition 0
         ++ le "prob_attrition" prob_attrition 1
         ++ ge "revolving_balance" revolving_balance 0
         ++ ge "purchase_amount" purchase_amount 0
         ++ ge "finance_charge_rate" finance_charge_rate 0
         ++ le "finance_charge_rate" finance_charge_rate 1
         ++ ge "other_fees" other_fees 0)%list
  with
  | [] => _competing_risks_valid
            (mkPeriodData period prob_charge_off prob_attrition
               revolving_balance purchase_amount finance_charge_rate
               other_fees)
  | errors => Raise errors
  end.

Record GlobalParameters := mkGlobalParameters {
  flat_interchange_rate : R;
  discount_rate : R;
  num_accounts : Z
}.

Definition GlobalParameters_init (flat_interchange_rate discount_rate : R)
    (num_accounts : Z) : result ValidationError GlobalParameters :=
  match (ge "flat_interchange_rate" flat_interchange_rate 0
         ++ le "flat_interchange_rate" flat_interchange_rate 1
         ++ ge "discount_rate" discount_rate 0
         ++ int_gt "num_accounts" num_accounts 0)%list
  with
  | [] => Ok (mkGlobalParameters flat_interchange_rate discount_rate
                num_accounts)
  | errors => Raise errors
  end.

Record CohortInput := mkCohortInput {
  periods : list PeriodData;
  parameters : GlobalParameters
}.

Definition _periods_sequential (self : CohortInput)
  : result ValidationError CohortInput :=
  let expected := map Z.of_nat (seq 1 (length (periods self))) in
  let actual := map period (periods self) in
  if bool_decide (actual <> expected) then
    Raise [ValueError
             [Text "Periods must be sequential starting at 1. Got: ";
              IntListRepr (firstn 5 actual); Text "..."]]
  else Ok self.

(** [CohortInput(periods=..., parameters=...)] on model instances. *)
Definition CohortInput_init (periods : list PeriodData)
    (parameters : GlobalParameters) : result ValidationError CohortInput :=
  _periods_sequential (mkCohortInput periods parameters).

(** The summary's [num_accounts] field is [summary_num_accounts] here: the
    name is taken by the field of [GlobalParameters]. *)
Record ValuationSummary := mkValuationSummary {
  total_pv : R;
  pv_per_account : R;
  total_revenue : R;
  total_cost : R;
  total_net_income : R;
  final_survival_rate : R;
  num_periods : nat;
  summary_num_accounts : Z
}.

(** A value the constructors return: what "validated" means below. *)
Definition validated_period (p : PeriodData) : Prop :=
  PeriodData_init (period p) (prob_charge_off p) (prob_attrition p)
    (revolving_balance p) (purchase_amount p) (finance_charge_rate p)
    (other_fees p) = Ok p.

Definition validated_parameters (g : GlobalParameters) : Prop :=
  GlobalParameters_init (flat_interchange_rate g) (discount_rate g)
    (num_accounts g) = Ok g.

Definition validated (c : CohortInput) : Prop :=
  Forall validated_period (periods c)
  /\ validated_parameters (parameters c)
  /\ CohortInput_init (periods c) (parameters c) = Ok c.

End Models.

(** ** engine.py: the calculation pipeline *)

Module Engine.
Import Pandas Models.

(** [p.model_dump()]: the fields in declaration order. *)
Definition model_dump (p : PeriodData) : list (string * R) :=
  [("period", IZR (period p));
   ("prob_charge_off", prob_charge_off p);
   ("prob_attrition", prob_attrition p);
   ("revolving_balance", revolving_balance p);
   ("purchase_amount", purchase_amount p);
   ("finance_charge_rate", finance_charge_rate p);
   ("other_fees", other_fees p)].

Definition build_period_table (cohort : CohortInput) : M ref :=
  let rows := map model_dump (periods cohort) in
  df <~ DataFrame_new rows ;;
  setitem_scalar df "flat_interchange_rate"
    (flat_interchange_rate (parameters cohort)) ;;;
  setitem_scalar df "discount_rate" (discount_rate (parameters cohort)) ;;;
  setitem_scalar df "num_accounts" (IZR (num_accounts (parameters cohort))) ;;;
  ret df.

Definition compute_survival (df : ref) : M ref :=
  df <~ copy df ;;
  pco <~ getitem df "prob_charge_off" ;;
  pa <~ getitem df "prob_attrition" ;;
  setitem df "survival_factor" (sub (rsub 1 pco) pa) ;;;
  sf <~ getitem df "survival_factor" ;;
  setitem df "cumulative_survival" (shift1 1 (cumprod sf)) ;;;
  na <~ getitem df "num_accounts" ;;
  cs <~ getitem df "cumulative_survival" ;;
  setitem df "active_accounts_bop" (mul na cs) ;;;
  bop <~ getitem df "active_accounts_bop" ;;
  pco <~ getitem df "prob_charge_off" ;;
  setitem df "charge_off_accounts" (mul bop pco) ;;;
  bop <~ getitem df "active_accounts_bop" ;;
  pa <~ getitem df "prob_attrition" ;;
  setitem df "attrition_accounts" (mul bop pa) ;;;
  ret df.

Definition compute_revenue (df : ref) : M ref :=
  df <~ copy df ;;
  bop <~ getitem df "active_accounts_bop" ;;
  rb <~ getitem df "revolving_balance" ;;
  fcr <~ getitem df "finance_charge_rate" ;;
  setitem df "finance_charge" (mul (mul bop rb) fcr) ;;;
  bop <~ getitem df "active_accounts_bop" ;;
  pu <~ getitem df "purchase_amount" ;;
  fir <~ getitem df "flat_interchange_rate" ;;
  setitem df "interchange" (mul (mul bop pu) fir) ;;;
  bop <~ getitem df "active_accounts_bop" ;;
  fees <~ getitem df "other_fees" ;;
  setitem df "fee_income" (mul bop fees) ;;;
  fc <~ getitem df "finance_charge" ;;
  ic <~ getitem df "interchange" ;;
  fi <~ getitem df "fee_income" ;;
  setitem df "total_revenue" (add (add fc ic) fi) ;;;
  ret df.

Definition compute_costs (df : ref) : M ref :=
  df <~ copy df ;;
  bop <~ getitem df "active_accounts_bop" ;;
  pco <~ getitem df "prob_charge_off" ;;
  rb <~ getitem df "revolving_balance" ;;
  setitem df "charge_off_loss" (mul (mul bop pco) rb) ;;;
  col <~ getitem df "charge_off_loss" ;;
  setitem df "total_cost" col ;;;
  ret df.

Definition compute_net_income_and_pv (df : ref) : M ref :=
  df <~ copy df ;;
  tr <~ getitem df "total_revenue" ;;
  tc <~ getitem df "total_cost" ;;
  setitem df "net_income" (sub tr tc) ;;;
  annual_rate <~ getitem df "discount_rate" ;;
  per <~ getitem df "period" ;;
  setitem df "discount_factor"
    (rtruediv 1 (pow (radd 1 annual_rate) (truediv per 12))) ;;;
  ni <~ getitem df "net_income" ;;
  dfac <~ getitem df "discount_factor" ;;
  setitem df "pv_net_income" (mul ni dfac) ;;;
  pv <~ getitem df "pv_net_income" ;;
  setitem df "cumulative_pv" (cumsum pv) ;;;
  ret df.

(** [total_pv / num_accounts] divides a float by a Python [int]: zero raises
    [ZeroDivisionError]; an [int] too large for a float (from about
    [2 ^ 1024]) raises [OverflowError], which this embedding leaves out. *)
Definition compute_summary (df : ref) (num_accounts : Z) : M ValuationSummary :=
  pv <~ getitem df "pv_net_income" ;;
  let total_pv := sum pv in
  pv_per_account <~
    (if Z.eqb num_accounts 0 then raise ZeroDivisionError
     else ret (total_pv / IZR num_accounts)%R) ;;
  tr <~ getitem df "total_revenue" ;;
  tc <~ getitem df "total_cost" ;;
  ni <~ getitem df "net_income" ;;
  cs <~ getitem df "cumulative_survival" ;;
  cs_last <~ iloc_last cs ;;
  sf <~ getitem df "survival_factor" ;;
  sf_last <~ iloc_last sf ;;
  n <~ len df ;;
  ret (mkValuationSummary total_pv pv_per_account (sum tr) (sum tc) (sum ni)
         (cs_last * sf_last)%R n num_accounts).

Definition run_valuation (cohort : CohortInput)
  : M (ref * ValuationSummary) :=
  df <~ build_period_table cohort ;;
  df <~ compute_survival df ;;
  df <~ compute_revenue df ;;
  df <~ compute_costs df ;;
  df <~ compute_net_income_and_pv df ;;
  summary <~ compute_summary df (num_accounts (parameters cohort)) ;;
  ret (df, summary).

End Engine.

(** ** Vocabulary of the statements

    Names for what the pipeline computes, so that the statements below can
    speak about columns and rows.  Each table is tied to the code by a lemma
    that runs the corresponding engine function. *)

Module Tables.
Import Pandas Models Engine.

(** The first two steps of [run_valuation]: the table that
    [compute_survival] produces for a cohort. *)
Definition survival_table (cohort : CohortInput) : M ref :=
  df <~ build_period_table cohort ;; compute_survival df.

(** The four stages between [build_period_table] and [compute_summary], the
    columns each one reads and the columns it assigns, in program order. *)
Inductive stage := Survival | Revenue | Costs | NetIncomePV.

Definition run_stage (s : stage) : ref -> M ref :=
  match s with
  | Survival => compute_survival
  | Revenue => compute_revenue
  | Costs => compute_costs
  | NetIncomePV => compute_net_income_and_pv
  end.

Definition reads (s : stage) : list string :=
  match s with
  | Survival => ["prob_charge_off"; "prob_attrition"; "num_accounts"]
  | Revenue =>
      ["active_accounts_bop"; "revolving_balance"; "finance_charge_rate";
       "purchase_amount"; "flat_interchange_rate"; "other_fees"]
  | Costs => ["active_accounts_bop"; "prob_charge_off"; "revolving_balance"]
  | NetIncomePV => ["total_revenue"; "total_cost"; "discount_rate"; "period"]
  end.

Definition writes (s : stage) : list string :=
  match s with
  | Survival =>
      ["survival_factor"; "cumulative_survival"; "active_accounts_bop";
       "charge_off_accounts"; "attrition_accounts"]
  | Revenue => ["finance_charge"; "interchange"; "fee_income"; "total_revenue"]
  | Costs => ["charge_off_loss"; "total_cost"]
  | NetIncomePV =>
      ["net_income"; "discount_factor"; "pv_net_income"; "cumulative_pv"]
  end.

(** Product of the entries of a series, and the products of its proper
    prefixes scaled by [a]: what [cumprod().shift(1, fill_value=1.0)] holds. *)
Definition prod (s : Series) : R := fold_right Rmult 1%R s.

Fixpoint prefix_products (a : R) (s : Series) : Series :=
  match s with
  | [] => []
  | x :: s' => a :: prefix_products (a * x) s'
  end.

(** A per-period input column, and a cohort-wide constant broadcast over the
    rows. *)
Definition field (f : PeriodData -> R) (c : CohortInput) : Series :=
  map f (periods c).

Definition broadcast (x : R) (c : CohortInput) : Series :=
  replicate (length (periods c)) x.

Definition period_of (c : CohortInput) : Series :=
  field (fun p => IZR (period p)) c.

Definition survival_factor_of (c : CohortInput) : Series :=
  sub (rsub 1 (field prob_charge_off c)) (field prob_attrition c).

Definition cumulative_survival_of (c : CohortInput) : Series :=
  shift1 1 (cumprod (survival_factor_of c)).

Definition active_accounts_bop_of (c : CohortInput) : Series :=
  mul (broadcast (IZR (num_accounts (parameters c))) c)
      (cumulative_survival_of c).

Definition charge_off_accounts_of (c : CohortInput) : Series :=
  mul (active_accounts_bop_of c) (field prob_charge_off c).

Definition attrition_accounts_of (c : CohortInput) : Series :=
  mul (active_accounts_bop_of c) (field prob_attrition c).

Definition finance_charge_of (c : CohortInput) : Series :=
  mul (mul (active_accounts_bop_of c) (field revolving_balance c))
      (field finance_charge_rate c).

Definition interchange_of (c : CohortInput) : Series :=
  mul (mul (active_accounts_bop_of c) (field purchase_amount c))
      (broadcast (flat_interchange_rate (parameters c)) c).

Definition fee_income_of (c : CohortInput) : Series :=
  mul (active_accounts_bop_of c) (field other_fees c).

Definition total_revenue_of (c : CohortInput) : Series :=
  add (add (finance_charge_of c) (interchange_of c)) (fee_income_of c).

Definition charge_off_loss_of (c : CohortInput) : Series :=
  mul (mul (active_accounts_bop_of c) (field prob_charge_off c))
      (field revolving_balance c).

Definition net_income_of (c : CohortInput) : Series :=
  sub (total_revenue_of c) (charge_off_loss_of c).

Definition discount_factor_of (c : CohortInput) : Series :=
  rtruediv 1
    (pow (radd 1 (broadcast (discount_rate (parameters c)) c))
         (truediv (period_of c) 12)).

Definition pv_net_income_of (c : CohortInput) : Series :=
  mul (net_income_of c) (discount_factor_of c).

Definition cumulative_pv_of (c : CohortInput) : Series :=
  cumsum (pv_net_income_of c).

Definition extend (t : DataFrame) (cols : list (string * Series)) : DataFrame :=
  {| index := index t; columns := (columns t ++ cols)%list |}.

(** The table [build_period_table] makes from a cohort with a period. *)
Definition input_table (c : CohortInput) : DataFrame :=
  {| index := length (periods c);
     columns :=
       [("period", period_of c);
        ("prob_charge_off", field prob_charge_off c);
        ("prob_attrition", field prob_attrition c);
        ("revolving_balance", field revolving_balance c);
        ("purchase_amount", field purchase_amount c);
        ("finance_charge_rate", field finance_charge_rate c);
        ("other_fees", field other_fees c);
        ("flat_interchange_rate",
          broadcast (flat_interchange_rate (parameters c)) c);
        ("discount_rate", broadcast (discount_rate (parameters c)) c);
        ("num_accounts", broadcast (IZR (num_accounts (parameters c))) c)] |}.

Definition new_columns (s : stage) (c : CohortInput)
  : list (string * Series) :=
  match s with
  | Survival =>
      [("survival_factor", survival_factor_of c);
       ("cumulative_survival", cumulative_survival_of c);
       ("active_accounts_bop", active_accounts_bop_of c);
       ("charge_off_accounts", charge_off_accounts_of c);
       ("attrition_accounts", attrition_accounts_of c)]
  | Revenue =>
      [("finance_charge", finance_charge_of c);
       ("interchange", interchange_of c);
       ("fee_income", fee_income_of c);
       ("total_revenue", total_revenue_of c)]
  | Costs =>
      [("charge_off_loss", charge_off_loss_of c);
       ("total_cost", charge_off_loss_of c)]
  | NetIncomePV =>
      [("net_income", net_income_of c);
       ("discount_factor", discount_factor_of c);
       ("pv_net_income", pv_net_income_of c);
       ("cumulative_pv", cumulative_pv_of c)]
  end.

(** The table after each stage of [run_valuation]. *)
Definition table_before (s : stage) (c : CohortInput) : DataFrame :=
  match s with
  | Survival => input_table c
  | Revenue => extend (input_table c) (new_columns Survival c)
  | Costs =>
      extend (extend (input_table c) (new_columns Survival c))
        (new_columns Revenue c)
  | NetIncomePV =>
      extend
        (extend (extend (input_table c) (new_columns Survival c))
           (new_columns Revenue c))
        (new_columns Costs c)
  end.

Definition table_after (s : stage) (c : CohortInput) : DataFrame :=
  extend (table_before s c) (new_columns s c).

(** The summary [compute_summary] extracts from the completed table. *)
Definition summary_of (c : CohortInput) : ValuationSummary :=
  let total := sum (pv_net_income_of c) in
  mkValuationSummary total
    (total / IZR (num_accounts (parameters c)))
    (sum (total_revenue_of c))
    (sum (charge_off_loss_of c))
    (sum (net_income_of c))
    (default 0%R (last (cumulative_survival_of c))
     * default 0%R (last (survival_factor_of c)))
    (length (periods c))
    (num_accounts (parameters c)).

(** *** Validation *)

(** Every field of a period within the range of its [Field] constraint. *)
Definition fields_in_range (period : Z)
    (prob_charge_off prob_attrition revolving_balance purchase_amount
     finance_charge_rate other_fees : R) : Prop :=
  (1 <= period <= 60)%Z
  /\ (0 <= prob_charge_off <= 1)%R
  /\ (0 <= prob_attrition <= 1)%R
  /\ (0 <= revolving_balance)%R
  /\ (0 <= purchase_amount)%R
  /\ (0 <= finance_charge_rate <= 1)%R
  /\ (0 <= other_fees)%R.

Definition parameters_in_range (g : GlobalParameters) : Prop :=
  (0 <= flat_interchange_rate g <= 1)%R
  /\ (0 <= discount_rate g)%R
  /\ (0 < num_accounts g)%Z.

(** The period indices a cohort of [n] periods must carry, and the ones it
    carries. *)
Definition expected_indices (n : nat) : list Z := map Z.of_nat (seq 1 n).
Definition actual_indices (ps : list PeriodData) : list Z := map period ps.

(** A message lists indices when the [repr] of their list is one of its
    formatted pieces. *)
Definition lists_indices (msg : list fragment) (l : list Z) : Prop :=
  In (IntListRepr l) msg.

(** The sequential-period rule with the error message listing the leading
    actual indices and the leading expected ones. *)
Definition sequential_message_with_expected (ps : list PeriodData)
    (g : GlobalParameters) : Prop :=
  forall e,
    CohortInput_init ps g = Raise e ->
    exists msg,
      e = [ValueError msg]
      /\ lists_indices msg (firstn 5 (actual_indices ps))
      /\ lists_indices msg (firstn 5 (expected_indices (length ps))).

(** The sequential-period claim with the expected indices in the message. *)
Definition sequential_claim (ps : list PeriodData) (g : GlobalParameters)
  : Prop :=
  ((exists c, CohortInput_init ps g = Ok c)
   <-> actual_indices ps = expected_indices (length ps))
  /\ sequential_message_with_expected ps g.

(** The periods of the test helper [make_period(t)]. *)
Definition make_period (t : Z) : PeriodData :=
  mkPeriodData t 0.02 0.03 5000 1000 0.015 25.

(** The parameters of the test fixture [default_params]. *)
Definition default_params : GlobalParameters :=
  mkGlobalParameters 0.02 0.10 1000.

(** The cohorts of the test fixtures. *)
Definition empty_cohort : CohortInput := mkCohortInput [] default_params.

Definition single_period_cohort : CohortInput :=
  mkCohortInput [make_period 1] default_params.

Definition two_period_cohort : CohortInput :=
  mkCohortInput [make_period 1; make_period 2] default_params.

(** *** What a run produces *)

(** [m] returns from store [h] with a value and a store that satisfy [Q]. *)
Definition returns {A} (m : M A) (h : gmap ref DataFrame)
    (Q : A -> gmap ref DataFrame -> Prop) : Prop :=
  exists a h', m h = (Ok a, h') /\ Q a h'.

(** The table of [compute_survival] for cohort [c] satisfies [P]; the only
    other outcome is the [KeyError] on a cohort without periods. *)
Definition on_survival_table (c : CohortInput) (h : gmap ref DataFrame)
    (P : DataFrame -> Prop) : Prop :=
  match survival_table c h with
  | (Ok r, h') => exists t, h' !! r = Some t /\ P t
  | (Raise e, _) => periods c = [] /\ e = KeyError "prob_charge_off"
  end.

(** The table and summary of [run_valuation] for cohort [c] satisfy [P]; the
    only other outcome is the [KeyError] on a cohort without periods. *)
Definition on_valuation (c : CohortInput) (h : gmap ref DataFrame)
    (P : DataFrame -> ValuationSummary -> Prop) : Prop :=
  match run_valuation c h with
  | (Ok (r, s), h') => exists t, h' !! r = Some t /\ P t s
  | (Raise e, _) => periods c = [] /\ e = KeyError "prob_charge_off"
  end.

(** [s] is column [name] of [t], one entry per row. *)
Definition has_column (t : DataFrame) (name : string) (s : Series) : Prop :=
  assoc name (columns t) = Some s /\ length s = index t.

(** Account conservation over every prefix of rows [0..k] (periods
    [1..k+1]) of a table with one row per period of [c]. *)
Definition conservation (c : CohortInput) (t : DataFrame) : Prop :=
  index t = length (periods c)
  /\ exists co att bop sf,
       has_column t "charge_off_accounts" co
       /\ has_column t "attrition_accounts" att
       /\ has_column t "active_accounts_bop" bop
       /\ has_column t "survival_factor" sf
       /\ forall k b s,
            bop !! k = Some b -> sf !! k = Some s ->
            (sum (take (S k) co) + sum (take (S k) att) + b * s
             = IZR (num_accounts (parameters c)))%R.

(** Monotonic decay of [active_accounts_bop], with zero reached only after a
    period whose exit probabilities add up to one. *)
Definition monotonic_decay (c : CohortInput) (t : DataFrame) : Prop :=
  index t = length (periods c)
  /\ exists bop,
       has_column t "active_accounts_bop" bop
       /\ (forall i j x y,
             (i <= j)%nat -> bop !! i = Some x -> bop !! j = Some y ->
             (y <= x)%R)
       /\ (forall k,
             bop !! k = Some 0%R ->
             exists j p,
               (j < k)%nat /\ periods c !! j = Some p
               /\ (prob_charge_off p + prob_attrition p = 1)%R).

(** The discounting formula, its strict decrease in the period for a
    positive rate, and the zero-rate case. *)
Definition discounting (c : CohortInput) (t : DataFrame)
    (s : ValuationSummary) : Prop :=
  let rate := discount_rate (parameters c) in
  index t = length (periods c)
  /\ exists per dfac,
       has_column t "period" per
       /\ has_column t "discount_factor" dfac
       /\ (forall k x d,
             per !! k = Some x -> dfac !! k = Some d ->
             d = (1 / Rpower (1 + rate) (x / 12))%R)
       /\ ((0 < rate)%R ->
           forall i j xi xj di dj,
             per !! i = Some xi -> per !! j = Some xj ->
             dfac !! i = Some di -> dfac !! j = Some dj ->
             (xi < xj)%R -> (dj < di)%R)
       /\ (rate = 0%R ->
           (forall k d, dfac !! k = Some d -> d = 1%R)
           /\ total_pv s = total_net_income s).

(** The last running sum of [pv_net_income] is the summary's [total_pv], the
    sum of that column. *)
Definition cumulative_pv_identity (t : DataFrame) (s : ValuationSummary)
  : Prop :=
  exists pv cpv,
    has_column t "pv_net_income" pv
    /\ has_column t "cumulative_pv" cpv
    /\ total_pv s = sum pv
    /\ last cpv = Some (total_pv s).

(** The values of row 1 in the reference scenario. *)
Definition reference_row (t : DataFrame) : Prop :=
  assoc "active_accounts_bop" (columns t) = Some [1000%R]
  /\ assoc "finance_charge" (columns t) = Some [75000%R]
  /\ assoc "interchange" (columns t) = Some [20000%R]
  /\ assoc "fee_income" (columns t) = Some [25000%R]
  /\ assoc "charge_off_loss" (columns t) = Some [100000%R]
  /\ assoc "net_income" (columns t) = Some [20000%R]
  /\ assoc "discount_factor" (columns t) = Some [Rpower 1.10 (- 1 / 12)].

(** Ranges of the derived columns. *)
Definition unit_interval_columns : list string :=
  ["survival_factor"; "cumulative_survival"].

Definition non_negative_columns : list string :=
  ["active_accounts_bop"; "charge_off_accounts"; "attrition_accounts";
   "finance_charge"; "interchange"; "fee_income"; "total_revenue";
   "charge_off_loss"; "total_cost"].

Definition non_negativity (c : CohortInput) (t : DataFrame) : Prop :=
  index t = length (periods c)
  /\ Forall (fun name =>
               exists s, has_column t name s
                         /\ Forall (fun x => 0 <= x <= 1)%R s)
            unit_interval_columns
  /\ Forall (fun name =>
               exists s, has_column t name s /\ Forall (fun x => 0 <= x)%R s)
            non_negative_columns.

(** Stage framing as the specification words it: the stage leaves in place
    the store it ran in and the frame it was given, and the frame it returns
    has every column of that frame, unchanged, followed by the stage's
    columns. *)
Definition frames (s : stage) (h : gmap ref DataFrame) (r : ref)
    (df : DataFrame) : Prop :=
  exists r' df',
    run_stage s r h = (Ok r', <[r' := df']> h)
    /\ h !! r' = None
    /\ (<[r' := df']> h) !! r = Some df
    /\ index df' = index df
    /\ names df' = (names df ++ writes s)%list
    /\ forall c, In c (names df) ->
                 assoc c (columns df') = assoc c (columns df).

(** A store with one frame, the input table of the single-period cohort. *)
Definition single_table_store : gmap ref DataFrame :=
  {[ 0%nat := input_table single_period_cohort ]}.

End Tables.

(** ** io.py: loading periods

    The file system is outside the program: the CSV files that can be read
    are given as a map from paths to what [pd.read_csv] makes of them. *)

Module Io.
Import Pandas Models Engine.

(** A cell of a frame read from a CSV file whose columns are numeric: pandas
    reads a column of integers as [int64] and any other numeric column as
    [float64].  (Text, booleans and blanks are outside this model.) *)
Inductive cell :=
| IntCell (z : Z)
| FloatCell (x : R).

(** The frame [pd.read_csv] returns: the number of rows and the columns in
    file order. *)
Record CsvFrame := mkCsvFrame {
  csv_index : nat;
  csv_data : list (string * list cell)
}.

Definition csv_names (df : CsvFrame) : list string := map fst (csv_data df).

(** [df.to_dict(orient="records")]: one dict per row, keyed by column. *)
Definition to_dict_records (df : CsvFrame) : list (list (string * cell)) :=
  map (fun i =>
         omap (fun col : string * list cell =>
                 match col.2 !! i with
                 | Some v => Some (col.1, v)
                 | None => None
                 end)
              (csv_data df))
      (seq 0 (csv_index df)).

(** How pydantic reads a keyword argument into an [int] field: an int as it
    is, a float only when it has no fractional part. *)
Definition as_int (loc : string) (v : option cell) : Z * ValidationError :=
  match v with
  | Some (IntCell z) => (z, [])
  | Some (FloatCell x) =>
      if Req_dec_T x (IZR (Int_part x)) then (Int_part x, [])
      else (0%Z, [FieldError loc "int_from_float"])
  | None => (0%Z, [FieldError loc "missing"])
  end.

(** ... and into a [float] field. *)
Definition as_float (loc : string) (v : option cell) : R * ValidationError :=
  match v with
  | Some (IntCell z) => (IZR z, [])
  | Some (FloatCell x) => (x, [])
  | None => (0%R, [FieldError loc "missing"])
  end.

(** The error of one field: the type error, or else the constraint errors. *)
Definition field_errors {A} (read : A * ValidationError)
    (constraints : A -> ValidationError) : ValidationError :=
  match read.2 with
  | [] => constraints read.1
  | type_errors => type_errors
  end.

(** [PeriodData] called with the row's items as keyword arguments: every
    field is read from the dict and checked, keys that are no fields are
    ignored, and the [mode="after"] validator runs when no field failed. *)
Definition PeriodData_kwargs (row : list (string * cell))
  : result ValidationError PeriodData :=
  let period := as_int "period" (assoc "period" row) in
  let pco := as_float "prob_charge_off" (assoc "prob_charge_off" row) in
  let pa := as_float "prob_attrition" (assoc "prob_attrition" row) in
  let rb := as_float "revolving_balance" (assoc "revolving_balance" row) in
  let pu := as_float "purchase_amount" (assoc "purchase_amount" row) in
  let fcr :=
    as_float "finance_charge_rate" (assoc "finance_charge_rate" row) in
  let fees := as_float "other_fees" (assoc "other_fees" row) in
  match (field_errors period
           (fun z => int_ge "period" z 1 ++ int_le "period" z 60)
         ++ field_errors pco
              (fun x => ge "prob_charge_off" x 0 ++ le "prob_charge_off" x 1)
         ++ field_errors pa
              (fun x => ge "prob_attrition" x 0 ++ le "prob_attrition" x 1)
         ++ field_errors rb (fun x => ge "revolving_balance" x 0)
         ++ field_errors pu (fun x => ge "purchase_amount" x 0)
         ++ field_errors fcr
              (fun x => ge "finance_charge_rate" x 0
                        ++ le "finance_charge_rate" x 1)
         ++ field_errors fees (fun x => ge "other_fees" x 0))%list
  with
  | [] => _competing_risks_valid
            (mkPeriodData period.1 pco.1 pa.1 rb.1 pu.1 fcr.1 fees.1)
  | errors => Raise errors
  end.

Inductive io_exn :=
| FileNotFoundError (path : string)
| MissingColumns (missing : gset string)
| ValidationFailed (e : ValidationError).

Definition EXPECTED_COLUMNS : gset string :=
  {[ "period"; "prob_charge_off"; "prob_attrition"; "revolving_balance";
     "purchase_amount"; "finance_charge_rate"; "other_fees" ]}.

(** [pd.read_csv(path)] *)
Definition read_csv (files : gmap string CsvFrame) (path : string)
  : result io_exn CsvFrame :=
  match files !! path with
  | Some df => Ok df
  | None => Raise (FileNotFoundError path)
  end.

(** The list comprehension that constructs a [PeriodData] from every row, in
    order: the first failure propagates. *)
Fixpoint construct_all (rows : list (list (string * cell)))
  : result ValidationError (list PeriodData) :=
  match rows with
  | [] => Ok []
  | row :: rows' =>
      match PeriodData_kwargs row with
      | Raise e => Raise e
      | Ok p =>
          match construct_all rows' with
          | Raise e => Raise e
          | Ok ps => Ok (p :: ps)
          end
      end
  end.

Definition load_periods_from_csv (files : gmap string CsvFrame)
    (path : string) : result io_exn (list PeriodData) :=
  match read_csv files path with
  | Raise e => Raise e
  | Ok df =>
      let missing := EXPECTED_COLUMNS ∖ list_to_set (csv_names df) in
      if bool_decide (missing <> ∅) then Raise (MissingColumns missing)
      else
        match construct_all (to_dict_records df) with
        | Raise e => Raise (ValidationFailed e)
        | Ok ps => Ok ps
        end
  end.

Definition load_cohort_input (files : gmap string CsvFrame)
    (csv_path : string) (flat_interchange_rate discount_rate : R)
    (num_accounts : Z) : result io_exn CohortInput :=
  match load_periods_from_csv files csv_path with
  | Raise e => Raise e
  | Ok periods =>
      match GlobalParameters_init flat_interchange_rate discount_rate
              num_accounts with
      | Raise e => Raise (ValidationFailed e)
      | Ok params =>
          match CohortInput_init periods params with
          | Raise e => Raise (ValidationFailed e)
          | Ok cohort => Ok cohort
          end
      end
  end.

End Io.

(** ** Further fixtures *)

Module Fixtures.
Import Pandas Models Engine Tables.

(** A results frame with its columns and no rows, alone in a store. *)
Definition empty_results : DataFrame :=
  {| index := 0;
     columns := [("total_revenue", []); ("total_cost", []);
                 ("net_income", []); ("pv_net_income", []);
                 ("cumulative_survival", []); ("survival_factor", [])] |}.

Definition empty_results_store : gmap ref DataFrame :=
  {[ 0%nat := empty_results ]}.

(** The columns that scale with the accounts still active in a period. *)
Definition account_scaled_columns : list string :=
  ["active_accounts_bop"; "charge_off_accounts"; "attrition_accounts";
   "finance_charge"; "interchange"; "fee_income"; "total_revenue";
   "charge_off_loss"; "total_cost"; "net_income"; "pv_net_income"].

(** Column [name] of [t] is zero on every row after row [j]. *)
Definition zero_after (t : DataFrame) (j : nat) (name : string) : Prop :=
  exists col,
    has_column t name col
    /\ forall k, (j < k < index t)%nat -> col !! k = Some 0%R.

(** The cohort of the full charge-off test: everybody charges off in the
    first of two periods. *)
Definition full_charge_off_cohort : CohortInput :=
  mkCohortInput
    [mkPeriodData 1 1 0 5000 1000 0.015 25;
     mkPeriodData 2 0 0 5000 1000 0.015 25] default_params.

(** *** Files for the loader *)

(** The number a cell stands for in a [float] field. *)
Definition float_value (v : Io.cell) : R :=
  match v with
  | Io.IntCell z => IZR z
  | Io.FloatCell x => x
  end.

(** The CSV of the round-trip test: [make_period(t)] for [t = 1, 2, 3]. *)
Definition three_period_csv : Io.CsvFrame :=
  Io.mkCsvFrame 3
    [("period", [Io.IntCell 1; Io.IntCell 2; Io.IntCell 3]);
     ("prob_charge_off",
       [Io.FloatCell 0.02; Io.FloatCell 0.02; Io.FloatCell 0.02]);
     ("prob_attrition",
       [Io.FloatCell 0.03; Io.FloatCell 0.03; Io.FloatCell 0.03]);
     ("revolving_balance",
       [Io.FloatCell 5000; Io.FloatCell 5000; Io.FloatCell 5000]);
     ("purchase_amount",
       [Io.FloatCell 1000; Io.FloatCell 1000; Io.FloatCell 1000]);
     ("finance_charge_rate",
       [Io.FloatCell 0.015; Io.FloatCell 0.015; Io.FloatCell 0.015]);
     ("other_fees", [Io.FloatCell 25; Io.FloatCell 25; Io.FloatCell 25])].

(** The CSV of the missing-column test. *)
Definition two_column_csv : Io.CsvFrame :=
  Io.mkCsvFrame 1
    [("period", [Io.IntCell 1]); ("prob_charge_off", [Io.FloatCell 0.01])].

(** A CSV with the expected header and no rows. *)
Definition header_only_csv : Io.CsvFrame :=
  Io.mkCsvFrame 0
    [("period", []); ("prob_charge_off", []); ("prob_attrition", []);
     ("revolving_balance", []); ("purchase_amount", []);
     ("finance_charge_rate", []); ("other_fees", [])].

Definition test_files : gmap string Io.CsvFrame :=
  {[ "test.csv" := three_period_csv;
     "bad.csv" := two_column_csv;
     "empty.csv" := header_only_csv ]}.

(** A store with one frame, the single-period table after
    [compute_survival]. *)
Definition survival_store : gmap ref DataFrame :=
  {[ 0%nat := table_before Revenue single_period_cohort ]}.

End Fixtures.

Set Warnings "-inexact-float".

(** ** The same code on IEEE-754 binary64

    Python's [float] and pandas' [float64] are binary64.  The modules above
    replace them by exact reals; this one keeps them: the validators of
    [models.py] and the column arithmetic of [engine.py] on primitive
    binary64 floats, every operation rounded to nearest-even as the hardware
    does it.  A decimal literal stands for the nearest binary64 value, as in
    Python.  The stages copy their argument and return the copy, so on frame
    values they are functions; the object store plays no role in the numbers
    and is left to the modules above.

    Two operations have no fixed binary64 result and are modelled only where
    they have one: [**] is the C library's [pow], for which the C standard
    fixes [pow(1.0, y) = 1.0] for every [y], and [Series.sum] depends on the
    summation order of the installed numpy and is left out together with
    [compute_summary].  An integer column is [int64]; the engine uses
    [period] and [num_accounts] only as operands of float arithmetic, where
    numpy converts them to binary64, so the frames below store them
    converted. *)

Module Binary64.
Import Floats.
Local Open Scope float_scope.

(** *** models.py *)

Inductive fragment :=
| Text (s : string)
| FloatRepr (x : float)
| IntListRepr (l : list Z).

Inductive error_detail :=
| FieldError (loc : string) (constraint : string)
| ValueError (msg : list fragment).

Abbreviation ValidationError := (list error_detail).

(** [x >= bound] and [x <= bound] on floats: false when [x] is NaN. *)
Definition ge (loc : string) (x bound : float) : ValidationError :=
  if bound <=? x then [] else [FieldError loc "greater_than_equal"].
Definition le (loc : string) (x bound : float) : ValidationError :=
  if x <=? bound then [] else [FieldError loc "less_than_equal"].
Definition int_ge (loc : string) (x bound : Z) : ValidationError :=
  if Z.geb x bound then [] else [FieldError loc "greater_than_equal"].
Definition int_le (loc : string) (x bound : Z) : ValidationError :=
  if Z.leb x bound then [] else [FieldError loc "less_than_equal"].
Definition int_gt (loc : string) (x bound : Z) : ValidationError :=
  if Z.gtb x bound then [] else [FieldError loc "greater_than"].

Record PeriodData := mkPeriodData {
  period : Z;
  prob_charge_off : float;
  prob_attrition : float;
  revolving_balance : float;
  purchase_amount : float;
  finance_charge_rate : float;
  other_fees : float
}.

(** [if self.prob_charge_off + self.prob_attrition > 1.0: raise ...] *)
Definition _competing_risks_valid (self : PeriodData)
  : result ValidationError PeriodData :=
  if 1 <? prob_charge_off self + prob_attrition self then
    Raise [ValueError
             [Text "prob_charge_off ("; FloatRepr (prob_charge_off self);
              Text ") + prob_attrition ("; FloatRepr (prob_attrition self);
              Text ") exceeds 1.0"]]
  else Ok self.

Definition PeriodData_init (period : Z)
    (prob_charge_off prob_attrition revolving_balance purchase_amount
     finance_charge_rate other_fees : float)
  : result ValidationError PeriodData :=
  match (int_ge "period" period 1 ++ int_le "period" period 60
         ++ ge "prob_charge_off" prob_charge_off 0
         ++ le "prob_charge_off" prob_charge_off 1
         ++ ge "prob_attrition" prob_attrition 0
         ++ le "prob_attrition" prob_attrition 1
         ++ ge "revolving_balance" revolving_balance 0
         ++ ge "purchase_amount" purchase_amount 0
         ++ ge "finance_charge_rate" finance_charge_rate 0
         ++ le "finance_charge_rate" finance_charge_rate 1
         ++ ge "other_fees" other_fees 0)%list
  with
  | [] => _competing_risks_valid
            (mkPeriodData period prob_charge_off prob_attrition
               revolving_balance purchase_amount finance_charge_rate
               other_fees)
  | errors => Raise errors
  end.

Record GlobalParameters := mkGlobalParameters {
  flat_interchange_rate : float;
  discount_rate : float;
  num_accounts : Z
}.

Definition GlobalParameters_init (flat_interchange_rate discount_rate : float)
    (num_accounts : Z) : result ValidationError GlobalParameters :=
  match (ge "flat_interchange_rate" flat_interchange_rate 0
         ++ le "flat_interchange_rate" flat_interchange_rate 1
         ++ ge "discount_rate" discount_rate 0
         ++ int_gt "num_accounts" num_accounts 0)%list
  with
  | [] => Ok (mkGlobalParameters flat_interchange_rate discount_rate
                num_accounts)
  | errors => Raise errors
  end.

Record CohortInput := mkCohortInput {
  periods : list PeriodData;
  parameters : GlobalParameters
}.

Definition _periods_sequential (self : CohortInput)
  : result ValidationError CohortInput :=
  let expected := map Z.of_nat (seq 1 (length (periods self))) in
  let actual := map period (periods self) in
  if bool_decide (actual <> expected) then
    Raise [ValueError
             [Text "Periods must be sequential starting at 1. Got: ";
              IntListRepr (firstn 5 actual); Text "..."]]
  else Ok self.

Definition CohortInput_init (periods : list PeriodData)
    (parameters : GlobalParameters) : result ValidationError CohortInput :=
  _periods_sequential (mkCohortInput periods parameters).

(** A value the constructors return. *)
Definition validated_period (p : PeriodData) : Prop :=
  PeriodData_init (period p) (prob_charge_off p) (prob_attrition p)
    (revolving_balance p) (purchase_amount p) (finance_charge_rate p)
    (other_fees p) = Ok p.

Definition validated_parameters (g : GlobalParameters) : Prop :=
  GlobalParameters_init (flat_interchange_rate g) (discount_rate g)
    (num_accounts g) = Ok g.

Definition validated (c : CohortInput) : Prop :=
  Forall validated_period (periods c)
  /\ validated_parameters (parameters c)
  /\ CohortInput_init (periods c) (parameters c) = Ok c.

(** *** The part of pandas the engine uses *)

Abbreviation Series := (list float).

Record DataFrame := mkDataFrame {
  index : nat;
  columns : list (string * Series)
}.

(** [Unmodelled]: the code goes on, with a value this model does not fix. *)
Inductive exn :=
| KeyError (key : string)
| Unmodelled (what : string).

Definition bind {A B} (m : result exn A) (k : A -> result exn B)
  : result exn B :=
  match m with
  | Ok a => k a
  | Raise e => Raise e
  end.

Notation "x <-- m ;; k" := (bind m (fun x => k))
  (at level 90, m at level 80, right associativity).

Fixpoint sequence {A} (l : list (result exn A)) : result exn (list A) :=
  match l with
  | [] => Ok []
  | m :: l' => x <-- m ;; xs <-- sequence l' ;; Ok (x :: xs)
  end.

(** The binary64 value numpy converts an [int64] to. *)
Definition int64 (z : Z) : result exn float :=
  if (Z.abs z <? 2 ^ 63)%Z then
    Ok (if (z <? 0)%Z then - of_uint63 (Uint63.of_Z (- z))
        else of_uint63 (Uint63.of_Z z))
  else Raise (Unmodelled "integer outside int64").

Definition of_records (rows : list (list (string * float))) : DataFrame :=
  {| index := length rows;
     columns :=
       match rows with
       | [] => []
       | r0 :: _ =>
           map (fun k =>
                  (k, map (fun r => default nan (Pandas.assoc k r)) rows))
               (map fst r0)
       end |}.

(** [df[c]] *)
Definition getitem (df : DataFrame) (c : string) : result exn Series :=
  match Pandas.assoc c (columns df) with
  | Some s => Ok s
  | None => Raise (KeyError c)
  end.

(** [df[c] = s] on a frame value *)
Definition setitem (df : DataFrame) (c : string) (s : Series) : DataFrame :=
  {| index := index df; columns := Pandas.assign c s (columns df) |}.

(** [df[c] = x] for a scalar *)
Definition setitem_scalar (df : DataFrame) (c : string) (x : float)
  : DataFrame :=
  setitem df c (replicate (index df) x).

Definition rsub (x : float) (s : Series) : Series := map (fun y => x - y) s.
Definition radd (x : float) (s : Series) : Series := map (fun y => x + y) s.
Definition rtruediv (x : float) (s : Series) : Series :=
  map (fun y => x / y) s.
Definition truediv (s : Series) (x : float) : Series :=
  map (fun y => y / x) s.
Definition add (a b : Series) : Series := zip_with PrimFloat.add a b.
Definition sub (a b : Series) : Series := zip_with PrimFloat.sub a b.
Definition mul (a b : Series) : Series := zip_with PrimFloat.mul a b.

(** [x ** y]: [pow(1.0, y)] is [1.0] whatever [y] is. *)
Definition float_pow (x y : float) : result exn float :=
  if x =? 1 then Ok 1 else Raise (Unmodelled "pow").

Definition pow (a b : Series) : result exn Series :=
  sequence (zip_with float_pow a b).

Fixpoint accumulate (op : float -> float -> float) (acc : float) (s : Series)
  : Series :=
  match s with
  | [] => []
  | x :: s' => op acc x :: accumulate op (op acc x) s'
  end.

(** [cumprod] / [cumsum] with pandas' default [skipna=True]: a NaN entry
    counts as the neutral element and gives NaN in its own row. *)
Definition cumulate (op : float -> float -> float) (neutral : float)
    (s : Series) : Series :=
  let vals := map (fun x => if is_nan x then neutral else x) s in
  let result :=
    match vals with
    | [] => []
    | x :: s' => x :: accumulate op x s'
    end in
  zip_with (fun x r => if is_nan x then nan else r) s result.

Definition cumprod (s : Series) : Series := cumulate PrimFloat.mul 1 s.
Definition cumsum (s : Series) : Series := cumulate PrimFloat.add 0 s.

Definition shift1 (fill : float) (s : Series) : Series :=
  firstn (length s) (fill :: s).

(** *** engine.py *)

Definition model_dump (p : PeriodData) : result exn (list (string * float)) :=
  per <-- int64 (period p) ;;
  Ok [("period", per);
      ("prob_charge_off", prob_charge_off p);
      ("prob_attrition", prob_attrition p);
      ("revolving_balance", revolving_balance p);
      ("purchase_amount", purchase_amount p);
      ("finance_charge_rate", finance_charge_rate p);
      ("other_fees", other_fees p)].

Definition build_period_table (cohort : CohortInput) : result exn DataFrame :=
  rows <-- sequence (map model_dump (periods cohort)) ;;
  let df := of_records rows in
  let df := setitem_scalar df "flat_interchange_rate"
              (flat_interchange_rate (parameters cohort)) in
  let df := setitem_scalar df "discount_rate"
              (discount_rate (parameters cohort)) in
  n <-- int64 (num_accounts (parameters cohort)) ;;
  let df := setitem_scalar df "num_accounts" n in
  Ok df.

Definition compute_survival (df : DataFrame) : result exn DataFrame :=
  pco <-- getitem df "prob_charge_off" ;;
  pa <-- getitem df "prob_attrition" ;;
  let df := setitem df "survival_factor" (sub (rsub 1 pco) pa) in
  sf <-- getitem df "survival_factor" ;;
  let df := setitem df "cumulative_survival" (shift1 1 (cumprod sf)) in
  na <-- getitem df "num_accounts" ;;
  cs <-- getitem df "cumulative_survival" ;;
  let df := setitem df "active_accounts_bop" (mul na cs) in
  bop <-- getitem df "active_accounts_bop" ;;
  pco <-- getitem df "prob_charge_off" ;;
  let df := setitem df "charge_off_accounts" (mul bop pco) in
  bop <-- getitem df "active_accounts_bop" ;;
  pa <-- getitem df "prob_attrition" ;;
  let df := setitem df "attrition_accounts" (mul bop pa) in
  Ok df.

Definition compute_revenue (df : DataFrame) : result exn DataFrame :=
  bop <-- getitem df "active_accounts_bop" ;;
  rb <-- getitem df "revolving_balance" ;;
  fcr <-- getitem df "finance_charge_rate" ;;
  let df := setitem df "finance_charge" (mul (mul bop rb) fcr) in
  bop <-- getitem df "active_accounts_bop" ;;
  pu <-- getitem df "purchase_amount" ;;
  fir <-- getitem df "flat_interchange_rate" ;;
  let df := setitem df "interchange" (mul (mul bop pu) fir) in
  bop <-- getitem df "active_accounts_bop" ;;
  fees <-- getitem df "other_fees" ;;
  let df := setitem df "fee_income" (mul bop fees) in
  fc <-- getitem df "finance_charge" ;;
  ic <-- getitem df "interchange" ;;
  fi <-- getitem df "fee_income" ;;
  let df := setitem df "total_revenue" (add (add fc ic) fi) in
  Ok df.

Definition compute_costs (df : DataFrame) : result exn DataFrame :=
  bop <-- getitem df "active_accounts_bop" ;;
  pco <-- getitem df "prob_charge_off" ;;
  rb <-- getitem df "revolving_balance" ;;
  let df := setitem df "charge_off_loss" (mul (mul bop pco) rb) in
  col <-- getitem df "charge_off_loss" ;;
  let df := setitem df "total_cost" col in
  Ok df.

Definition compute_net_income_and_pv (df : DataFrame) : result exn DataFrame :=
  tr <-- getitem df "total_revenue" ;;
  tc <-- getitem df "total_cost" ;;
  let df := setitem df "net_income" (sub tr tc) in
  annual_rate <-- getitem df "discount_rate" ;;
  per <-- getitem df "period" ;;
  powers <-- pow (radd 1 annual_rate) (truediv per 12) ;;
  let df := setitem df "discount_factor" (rtruediv 1 powers) in
  ni <-- getitem df "net_income" ;;
  dfac <-- getitem df "discount_factor" ;;
  let df := setitem df "pv_net_income" (mul ni dfac) in
  pv <-- getitem df "pv_net_income" ;;
  let df := setitem df "cumulative_pv" (cumsum pv) in
  Ok df.

(** The table of [compute_survival] for a cohort, and the table
    [run_valuation] returns: its statements up to [compute_summary]. *)
Definition survival_table (cohort : CohortInput) : result exn DataFrame :=
  df <-- build_period_table cohort ;; compute_survival df.

Definition valuation_table (cohort : CohortInput) : result exn DataFrame :=
  df <-- build_period_table cohort ;;
  df <-- compute_survival df ;;
  df <-- compute_revenue df ;;
  df <-- compute_costs df ;;
  compute_net_income_and_pv df.

(** *** The claims, read on binary64 *)

Definition fields_in_range (period : Z)
    (prob_charge_off prob_attrition revolving_balance purchase_amount
     finance_charge_rate other_fees : float) : bool :=
  (1 <=? period)%Z && (period <=? 60)%Z
  && (0 <=? prob_charge_off) && (prob_charge_off <=? 1)
  && (0 <=? prob_attrition) && (prob_attrition <=? 1)
  && (0 <=? revolving_balance)
  && (0 <=? purchase_amount)
  && (0 <=? finance_charge_rate) && (finance_charge_rate <=? 1)
  && (0 <=? other_fees).

Definition names_value (msg : list fragment) (x : float) : Prop :=
  In (FloatRepr x) msg.

(** The competing-risk claim with the sum in the message. *)
Definition competing_risk_claim (period : Z) (pco pa rb pu fcr fees : float)
  : Prop :=
  ((exists p, PeriodData_init period pco pa rb pu fcr fees = Ok p)
   <-> (pco + pa <=? 1) = true)
  /\ forall e,
       PeriodData_init period pco pa rb pu fcr fees = Raise e ->
       exists msg,
         e = [ValueError msg]
         /\ names_value msg pco /\ names_value msg pa
         /\ names_value msg (pco + pa).

Definition has_column (t : DataFrame) (name : string) (s : Series) : Prop :=
  Pandas.assoc name (columns t) = Some s.

(** Monotonic decay of [active_accounts_bop], with zero reached only after
    a period whose exit probabilities add up to [1.0]. *)
Definition monotonic_decay (c : CohortInput) (t : DataFrame) : Prop :=
  exists bop,
    has_column t "active_accounts_bop" bop
    /\ (forall i j x y,
          (i <= j)%nat -> bop !! i = Some x -> bop !! j = Some y ->
          (y <=? x) = true)
    /\ (forall k x,
          bop !! k = Some x -> (x =? 0) = true ->
          exists j p,
            (j < k)%nat /\ periods c !! j = Some p
            /\ (prob_charge_off p + prob_attrition p =? 1) = true).

(** Strict decrease of [discount_factor] in the period for a positive
    rate. *)
Definition discount_strictly_decreasing (c : CohortInput) (t : DataFrame)
  : Prop :=
  exists dfac,
    has_column t "discount_factor" dfac
    /\ ((0 <? discount_rate (parameters c)) = true ->
        forall i j di dj,
          (i < j)%nat -> dfac !! i = Some di -> dfac !! j = Some dj ->
          (dj <? di) = true).

(** Ranges of the derived columns. *)
Definition non_negativity (t : DataFrame) : Prop :=
  Forall (fun name =>
            exists s, has_column t name s
                      /\ Forall (fun x => (0 <=? x) = true
                                          /\ (x <=? 1) = true) s)
         Tables.unit_interval_columns
  /\ Forall (fun name =>
               exists s, has_column t name s
                         /\ Forall (fun x => (0 <=? x) = true) s)
            Tables.non_negative_columns.

(** *** Inputs *)

Definition make_period (t : Z) (pco pa : float) : PeriodData :=
  mkPeriodData t pco pa 5000 1000 0.015 25.


(** A positive discount rate below the spacing of binary64 at [1.0]. *)
Definition tiny_rate_cohort : CohortInput :=
  mkCohortInput [make_period 1 0.02 0.03; make_period 2 0.02 0.03]
    (mkGlobalParameters 0.02 1e-17 1000).


End Binary64.

(** ** Stage framing on any frame *)

Module Framing.
Import Pandas Models Engine Tables.

(** What a stage does to any frame that has the columns it reads: it
    returns a new object and leaves the store it ran in as it was (the frame
    it was given included); the returned frame has the same index, the
    columns of the input in their order followed by those of the stage's
    columns the input did not have, and the input's values in every column
    the stage does not assign.  When the input has none of the stage's
    columns, the stage's columns are all appended and every column of the
    input keeps its values. *)
Definition framing (s : stage) (h : gmap ref DataFrame) (r : ref)
    (df : DataFrame) : Prop :=
  exists r' df',
    run_stage s r h = (Ok r', <[r' := df']> h)
    /\ h !! r' = None
    /\ (<[r' := df']> h) !! r = Some df
    /\ index df' = index df
    /\ names df' = (names df ++ list_difference (writes s) (names df))%list
    /\ (forall c, ~ In c (writes s) ->
                  assoc c (columns df') = assoc c (columns df))
    /\ (Forall (fun c => ~ In c (names df)) (writes s) ->
        names df' = (names df ++ writes s)%list
        /\ forall c, In c (names df) ->
                     assoc c (columns df') = assoc c (columns df)).

(** Assigning a list of columns in order. *)
Definition assign_all (kvs : list (string * Series)) (df : DataFrame)
  : DataFrame :=
  fold_left (fun d kv => set_column d kv.1 kv.2) kvs df.

(** The input table of the single-period cohort with a [survival_factor]
    column already in it, and a store that holds it. *)
Definition table_with_survival_factor : DataFrame :=
  extend (input_table single_period_cohort) [("survival_factor", [0.5%R])].

Definition survival_factor_store : gmap ref DataFrame :=
  {[ 0%nat := table_with_survival_factor ]}.

End Framing.

(** * Properties *)

Import Pandas Models Engine Tables.

(** ** Columns of a frame *)

Lemma assoc_assign {A} (q k : string) (v : A) (l : list (string * A)) :
  assoc q (assign k v l) = if String.eqb q k then Some v else assoc q l.
Proof.
  induction l as [|[k' v'] l IH]; simpl.
  - destruct (String.eqb q k); reflexivity.
  - destruct (String.eqb_spec k k') as [->|Hk]; simpl.
    + destruct (String.eqb q k'); reflexivity.
    + rewrite IH. destruct (String.eqb_spec q k') as [->|Hq]; [|reflexivity].
      destruct (String.eqb_spec k' k); congruence.
Qed.

Lemma assoc_set_column (df : DataFrame) (q k : string) (v : Series) :
  assoc q (columns (set_column df k v))
  = if String.eqb q k then Some v else assoc q (columns df).
Proof. apply assoc_assign. Qed.

Lemma assoc_In {A} (q : string) (l : list (string * A)) :
  In q (map fst l) <-> exists v, assoc q l = Some v.
Proof.
  induction l as [|[k v] l IH]; simpl.
  - split; [tauto | intros [v Hv]; discriminate].
  - destruct (String.eqb_spec q k) as [->|Hq].
    + split; eauto.
    + rewrite <- IH. split; [intros [?|?]; congruence || assumption | auto].
Qed.

Lemma names_assign_fresh {A} (k : string) (v : A) (l : list (string * A)) :
  ~ In k (map fst l) -> map fst (assign k v l) = (map fst l ++ [k])%list.
Proof.
  induction l as [|[k' v'] l IH]; simpl; [reflexivity|].
  intros Hk. destruct (String.eqb_spec k k') as [->|Hne]; [tauto|].
  simpl. rewrite IH by tauto. reflexivity.
Qed.

(** ** Running the store monad, focused on the object being built *)

Section Run.
Variable h : gmap ref DataFrame.

Lemma bind_Ok {A B} (m : M A) (k : A -> M B) h0 a h1 :
  m h0 = (Ok a, h1) -> bind m k h0 = k a h1.
Proof. unfold bind. intros ->. reflexivity. Qed.

Lemma bind_Raise {A B} (m : M A) (k : A -> M B) h0 e h1 :
  m h0 = (Raise e, h1) -> bind m k h0 = (Raise e, h1).
Proof. unfold bind. intros ->. reflexivity. Qed.

Lemma fresh_None : h !! fresh (dom h) = None.
Proof. apply not_elem_of_dom, is_fresh. Qed.

Lemma copy_run r df :
  h !! r = Some df ->
  copy r h = (Ok (fresh (dom h)), <[fresh (dom h) := df]> h).
Proof. intros Hr. unfold copy, bind, deref, alloc. rewrite Hr. reflexivity. Qed.

Lemma getitem_focus r df c s :
  assoc c (columns df) = Some s ->
  getitem r c (<[r := df]> h) = (Ok s, <[r := df]> h).
Proof.
  intros Hc. unfold getitem, bind, deref.
  rewrite lookup_insert_eq, Hc. reflexivity.
Qed.

Lemma getitem_focus_missing r df c :
  assoc c (columns df) = None ->
  getitem r c (<[r := df]> h) = (Raise (KeyError c), <[r := df]> h).
Proof.
  intros Hc. unfold getitem, bind, deref.
  rewrite lookup_insert_eq, Hc. reflexivity.
Qed.

Lemma setitem_focus r df c s :
  setitem r c s (<[r := df]> h) = (Ok tt, <[r := set_column df c s]> h).
Proof.
  unfold setitem, bind, deref, update.
  rewrite lookup_insert_eq, insert_insert_eq. reflexivity.
Qed.

Lemma setitem_scalar_focus r df c x :
  setitem_scalar r c x (<[r := df]> h)
  = (Ok tt, <[r := set_column df c (replicate (index df) x)]> h).
Proof.
  unfold setitem_scalar, bind, deref, update.
  rewrite lookup_insert_eq, insert_insert_eq. reflexivity.
Qed.

Lemma len_focus r df :
  len r (<[r := df]> h) = (Ok (index df), <[r := df]> h).
Proof. unfold len, bind, deref. rewrite lookup_insert_eq. reflexivity. Qed.

End Run.

(** Decide the comparisons of column names that show up while stepping. *)
Ltac eval_names :=
  repeat match goal with
    | |- context [String.eqb ?a ?b] =>
        let v := eval vm_compute in (String.eqb a b) in
        change (String.eqb a b) with v
    end;
  cbv beta iota.

Ltac find_column :=
  rewrite ?assoc_set_column; eval_names;
  first [reflexivity | eassumption].

(** One statement of a stage, executed on the focused object. *)
Ltac step :=
  lazymatch goal with
  | |- bind (getitem _ _) _ _ = _ =>
      erewrite bind_Ok by (apply getitem_focus; find_column)
  | |- bind (setitem _ _ _) _ _ = _ =>
      erewrite bind_Ok by apply setitem_focus
  | |- bind (setitem_scalar _ _ _) _ _ = _ =>
      erewrite bind_Ok by apply setitem_scalar_focus
  | |- bind (len _) _ _ = _ =>
      erewrite bind_Ok by apply len_focus
  end.

Lemma compute_survival_run h r df pco pa na :
  h !! r = Some df ->
  assoc "prob_charge_off" (columns df) = Some pco ->
  assoc "prob_attrition" (columns df) = Some pa ->
  assoc "num_accounts" (columns df) = Some na ->
  let sf := sub (rsub 1 pco) pa in
  let cs := shift1 1 (cumprod sf) in
  let bop := mul na cs in
  compute_survival r h
  = (Ok (fresh (dom h)),
     <[fresh (dom h) :=
         set_column
           (set_column
              (set_column
                 (set_column (set_column df "survival_factor" sf)
                    "cumulative_survival" cs)
                 "active_accounts_bop" bop)
              "charge_off_accounts" (mul bop pco))
           "attrition_accounts" (mul bop pa)]> h).
Proof.
  intros Hr Hpco Hpa Hna sf cs bop. unfold compute_survival.
  erewrite bind_Ok by (apply copy_run; eassumption).
  repeat step. reflexivity.
Qed.

Lemma compute_revenue_run h r df bop rb fcr pu fir fees :
  h !! r = Some df ->
  assoc "active_accounts_bop" (columns df) = Some bop ->
  assoc "revolving_balance" (columns df) = Some rb ->
  assoc "finance_charge_rate" (columns df) = Some fcr ->
  assoc "purchase_amount" (columns df) = Some pu ->
  assoc "flat_interchange_rate" (columns df) = Some fir ->
  assoc "other_fees" (columns df) = Some fees ->
  let fc := mul (mul bop rb) fcr in
  let ic := mul (mul bop pu) fir in
  let fi := mul bop fees in
  compute_revenue r h
  = (Ok (fresh (dom h)),
     <[fresh (dom h) :=
         set_column
           (set_column
              (set_column (set_column df "finance_charge" fc)
                 "interchange" ic)
              "fee_income" fi)
           "total_revenue" (add (add fc ic) fi)]> h).
Proof.
  intros Hr Hbop Hrb Hfcr Hpu Hfir Hfees fc ic fi. unfold compute_revenue.
  erewrite bind_Ok by (apply copy_run; eassumption).
  repeat step. reflexivity.
Qed.

Lemma compute_costs_run h r df bop pco rb :
  h !! r = Some df ->
  assoc "active_accounts_bop" (columns df) = Some bop ->
  assoc "prob_charge_off" (columns df) = Some pco ->
  assoc "revolving_balance" (columns df) = Some rb ->
  let loss := mul (mul bop pco) rb in
  compute_costs r h
  = (Ok (fresh (dom h)),
     <[fresh (dom h) :=
         set_column (set_column df "charge_off_loss" loss)
           "total_cost" loss]> h).
Proof.
  intros Hr Hbop Hpco Hrb loss. unfold compute_costs.
  erewrite bind_Ok by (apply copy_run; eassumption).
  repeat step. reflexivity.
Qed.

Lemma compute_net_income_and_pv_run h r df tr tc rate per :
  h !! r = Some df ->
  assoc "total_revenue" (columns df) = Some tr ->
  assoc "total_cost" (columns df) = Some tc ->
  assoc "discount_rate" (columns df) = Some rate ->
  assoc "period" (columns df) = Some per ->
  let ni := sub tr tc in
  let dfac := rtruediv 1 (pow (radd 1 rate) (truediv per 12)) in
  let pv := mul ni dfac in
  compute_net_income_and_pv r h
  = (Ok (fresh (dom h)),
     <[fresh (dom h) :=
         set_column
           (set_column
              (set_column (set_column df "net_income" ni)
                 "discount_factor" dfac)
              "pv_net_income" pv)
           "cumulative_pv" (cumsum pv)]> h).
Proof.
  intros Hr Htr Htc Hrate Hper ni dfac pv. unfold compute_net_income_and_pv.
  erewrite bind_Ok by (apply copy_run; eassumption).
  repeat step. reflexivity.
Qed.

Lemma build_period_table_run h cohort :
  build_period_table cohort h
  = (Ok (fresh (dom h)),
     <[fresh (dom h) :=
         let t := of_records (map model_dump (periods cohort)) in
         let n := index t in
         set_column
           (set_column
              (set_column t "flat_interchange_rate"
                 (replicate n (flat_interchange_rate (parameters cohort))))
              "discount_rate"
              (replicate n (discount_rate (parameters cohort))))
           "num_accounts"
           (replicate n (IZR (num_accounts (parameters cohort))))]> h).
Proof.
  unfold build_period_table, DataFrame_new.
  erewrite bind_Ok by reflexivity.
  repeat step. reflexivity.
Qed.

(** ** The pipeline on a cohort, stage by stage *)

Lemma model_dump_column (f : PeriodData -> R) (k : string) ps :
  (forall p, assoc k (model_dump p) = Some (f p)) ->
  map (fun r => default 0%R (assoc k r)) (map model_dump ps) = map f ps.
Proof.
  intros Hk. rewrite map_map. apply map_ext. intros p. rewrite Hk. reflexivity.
Qed.

Lemma of_records_model_dump c :
  periods c <> [] ->
  of_records (map model_dump (periods c))
  = {| index := length (periods c);
       columns := firstn 7 (columns (input_table c)) |}.
Proof.
  intros Hne. unfold input_table, columns, firstn, period_of, field.
  destruct (periods c) as [|p ps]; [congruence|].
  set (l := p :: ps).
  assert (Hrows : of_records (map model_dump l)
                  = {| index := length l;
                       columns :=
                         map (fun k =>
                                (k, map (fun r => default 0%R (assoc k r))
                                      (map model_dump l)))
                             (map fst (model_dump p)) |}).
  { unfold of_records. rewrite length_map. reflexivity. }
  rewrite Hrows. clearbody l. f_equal.
  cbn [map fst model_dump].
  rewrite (model_dump_column (fun p => IZR (period p)) "period"),
    (model_dump_column prob_charge_off "prob_charge_off"),
    (model_dump_column prob_attrition "prob_attrition"),
    (model_dump_column revolving_balance "revolving_balance"),
    (model_dump_column purchase_amount "purchase_amount"),
    (model_dump_column finance_charge_rate "finance_charge_rate"),
    (model_dump_column other_fees "other_fees") by reflexivity.
  reflexivity.
Qed.

Lemma build_period_table_nonempty c h :
  periods c <> [] ->
  build_period_table c h
  = (Ok (fresh (dom h)), <[fresh (dom h) := input_table c]> h).
Proof.
  intros Hne. rewrite build_period_table_run.
  rewrite (of_records_model_dump c Hne). reflexivity.
Qed.

Lemma build_period_table_empty c h :
  periods c = [] ->
  build_period_table c h
  = (Ok (fresh (dom h)),
     <[fresh (dom h) :=
         {| index := 0;
            columns := [("flat_interchange_rate", []); ("discount_rate", []);
                        ("num_accounts", [])] |}]> h).
Proof. intros E. rewrite build_period_table_run, E. reflexivity. Qed.

Lemma stage_run (s : stage) c h r :
  h !! r = Some (table_before s c) ->
  run_stage s r h
  = (Ok (fresh (dom h)), <[fresh (dom h) := table_after s c]> h).
Proof.
  intros Hr. destruct s; simpl run_stage.
  - erewrite compute_survival_run by (try eassumption; reflexivity).
    reflexivity.
  - erewrite compute_revenue_run by (try eassumption; reflexivity).
    reflexivity.
  - erewrite compute_costs_run by (try eassumption; reflexivity).
    reflexivity.
  - erewrite compute_net_income_and_pv_run by (try eassumption; reflexivity).
    reflexivity.
Qed.

(** ** Lengths: every column has one entry per period *)

Lemma length_accumulate op a s : length (accumulate op a s) = length s.
Proof. revert a. induction s; intros; simpl; auto. Qed.

Lemma length_cumprod s : length (cumprod s) = length s.
Proof. destruct s; simpl; [|rewrite length_accumulate]; reflexivity. Qed.

Lemma length_cumsum s : length (cumsum s) = length s.
Proof. destruct s; simpl; [|rewrite length_accumulate]; reflexivity. Qed.

Lemma length_shift1 x s : length (shift1 x s) = length s.
Proof. unfold shift1. rewrite length_take. simpl. lia. Qed.

Ltac series_length :=
  unfold cumulative_pv_of, pv_net_income_of, discount_factor_of,
    net_income_of, charge_off_loss_of, total_revenue_of, fee_income_of,
    interchange_of, finance_charge_of, attrition_accounts_of,
    charge_off_accounts_of, active_accounts_bop_of, cumulative_survival_of,
    survival_factor_of, period_of, field, broadcast,
    add, sub, mul, pow, rsub, radd, rtruediv, truediv;
  repeat first
    [ rewrite length_zip_with | rewrite length_map | rewrite length_replicate
    | rewrite length_shift1 | rewrite length_cumprod | rewrite length_cumsum ];
  lia.

Lemma length_survival_factor_of c :
  length (survival_factor_of c) = length (periods c).
Proof. series_length. Qed.

Lemma length_cumulative_survival_of c :
  length (cumulative_survival_of c) = length (periods c).
Proof. series_length. Qed.

Lemma length_active_accounts_bop_of c :
  length (active_accounts_bop_of c) = length (periods c).
Proof. series_length. Qed.

Lemma length_charge_off_accounts_of c :
  length (charge_off_accounts_of c) = length (periods c).
Proof. series_length. Qed.

Lemma length_attrition_accounts_of c :
  length (attrition_accounts_of c) = length (periods c).
Proof. series_length. Qed.

Lemma length_net_income_of c : length (net_income_of c) = length (periods c).
Proof. series_length. Qed.

Lemma length_discount_factor_of c :
  length (discount_factor_of c) = length (periods c).
Proof. series_length. Qed.

Lemma length_pv_net_income_of c :
  length (pv_net_income_of c) = length (periods c).
Proof. series_length. Qed.

Lemma last_default (s : Series) :
  s <> [] -> last s = Some (default 0%R (last s)).
Proof.
  intros Hs. destruct (last s) eqn:E; [reflexivity|].
  apply last_None in E. congruence.
Qed.

Lemma nonempty_length {A} (l : list A) : l <> [] <-> (0 < length l)%nat.
Proof. destruct l; simpl; split; (congruence || lia). Qed.

Lemma compute_summary_run c h r :
  periods c <> [] ->
  num_accounts (parameters c) <> 0%Z ->
  compute_summary r (num_accounts (parameters c))
    (<[r := table_after NetIncomePV c]> h)
  = (Ok (summary_of c), <[r := table_after NetIncomePV c]> h).
Proof.
  intros Hne HN. unfold compute_summary.
  apply nonempty_length in Hne.
  step. apply Z.eqb_neq in HN. rewrite HN.
  erewrite bind_Ok by reflexivity.
  do 4 step.
  erewrite bind_Ok; cycle 1.
  { unfold iloc_last. rewrite last_default; [reflexivity|].
    apply nonempty_length. rewrite length_cumulative_survival_of. exact Hne. }
  step.
  erewrite bind_Ok; cycle 1.
  { unfold iloc_last. rewrite last_default; [reflexivity|].
    apply nonempty_length. rewrite length_survival_factor_of. exact Hne. }
  step. reflexivity.
Qed.

Lemma survival_table_run c h :
  periods c <> [] ->
  exists r h',
    survival_table c h = (Ok r, h')
    /\ h' !! r = Some (table_after Survival c).
Proof.
  intros Hne. unfold survival_table.
  erewrite bind_Ok by (apply build_period_table_nonempty; exact Hne).
  rewrite (stage_run Survival c) by apply lookup_insert_eq.
  eexists _, _. split; [reflexivity|]. apply lookup_insert_eq.
Qed.

Lemma survival_table_empty c h :
  periods c = [] ->
  exists h', survival_table c h = (Raise (KeyError "prob_charge_off"), h').
Proof.
  intros E. unfold survival_table.
  erewrite bind_Ok by (apply build_period_table_empty; exact E).
  unfold compute_survival.
  erewrite bind_Ok by (apply copy_run, lookup_insert_eq).
  erewrite bind_Raise by (apply getitem_focus_missing; reflexivity).
  eexists. reflexivity.
Qed.

Lemma run_valuation_run c h :
  periods c <> [] ->
  num_accounts (parameters c) <> 0%Z ->
  exists r h',
    run_valuation c h = (Ok (r, summary_of c), h')
    /\ h' !! r = Some (table_after NetIncomePV c).
Proof.
  intros Hne HN. unfold run_valuation.
  erewrite bind_Ok by (apply build_period_table_nonempty; exact Hne).
  erewrite bind_Ok by (apply (stage_run Survival c), lookup_insert_eq).
  erewrite bind_Ok by (apply (stage_run Revenue c), lookup_insert_eq).
  erewrite bind_Ok by (apply (stage_run Costs c), lookup_insert_eq).
  erewrite bind_Ok by (apply (stage_run NetIncomePV c), lookup_insert_eq).
  erewrite bind_Ok by (apply compute_summary_run; assumption).
  eexists _, _. split; [reflexivity|]. apply lookup_insert_eq.
Qed.

Lemma run_valuation_empty c h :
  periods c = [] ->
  exists h', run_valuation c h = (Raise (KeyError "prob_charge_off"), h').
Proof.
  intros E. unfold run_valuation.
  erewrite bind_Ok by (apply build_period_table_empty; exact E).
  erewrite bind_Raise; [eexists; reflexivity|].
  unfold compute_survival.
  erewrite bind_Ok by (apply copy_run, lookup_insert_eq).
  erewrite bind_Raise by (apply getitem_focus_missing; reflexivity).
  reflexivity.
Qed.

(** ** Validation on construction *)

Lemma ge_nil loc x b : ge loc x b = [] <-> (b <= x)%R.
Proof. unfold ge. destruct (Rge_dec x b); split; (discriminate || lra || auto). Qed.

Lemma le_nil loc x b : le loc x b = [] <-> (x <= b)%R.
Proof. unfold le. destruct (Rle_dec x b); split; (discriminate || lra || auto). Qed.

Lemma int_ge_nil loc x b : int_ge loc x b = [] <-> (b <= x)%Z.
Proof.
  unfold int_ge. destruct (Z.geb_spec x b); split; (discriminate || lia || auto).
Qed.

Lemma int_le_nil loc x b : int_le loc x b = [] <-> (x <= b)%Z.
Proof.
  unfold int_le. destruct (Z.leb_spec x b); split; (discriminate || lia || auto).
Qed.

Lemma int_gt_nil loc x b : int_gt loc x b = [] <-> (b < x)%Z.
Proof.
  unfold int_gt. rewrite Z.gtb_ltb.
  destruct (Z.ltb_spec b x); split; (discriminate || lia || auto).
Qed.

Lemma app_nil_iff {A} (l k : list A) : (l ++ k)%list = [] <-> l = [] /\ k = [].
Proof. destruct l; simpl; split; (intuition congruence). Qed.

Lemma match_errors {A} (errors : ValidationError) (ok : result ValidationError A) :
  match errors with [] => ok | e :: l => Raise (e :: l) end
  = if bool_decide (errors = []) then ok else Raise errors.
Proof. destruct errors; reflexivity. Qed.

Lemma PeriodData_init_in_range period pco pa rb pu fcr fees :
  fields_in_range period pco pa rb pu fcr fees ->
  PeriodData_init period pco pa rb pu fcr fees
  = _competing_risks_valid (mkPeriodData period pco pa rb pu fcr fees).
Proof.
  intros (Hp & Hpco & Hpa & Hrb & Hpu & Hfcr & Hfees).
  unfold PeriodData_init. rewrite match_errors.
  rewrite bool_decide_eq_true_2; [reflexivity|].
  repeat (apply app_nil_iff; split);
    first [apply int_ge_nil | apply int_le_nil | apply ge_nil | apply le_nil];
    (lia || lra).
Qed.

Lemma check_no_ValueError msg (l : ValidationError) :
  (exists loc x b, l = ge loc x b \/ l = le loc x b)
  \/ (exists loc x b, l = int_ge loc x b \/ l = int_le loc x b
                      \/ l = int_gt loc x b) ->
  ~ In (ValueError msg) l.
Proof.
  intros [(loc & x & b & [-> | ->]) | (loc & x & b & [-> | [-> | ->]])];
    unfold ge, le, int_ge, int_le, int_gt;
    match goal with |- context [if ?c then _ else _] => destruct c end;
    simpl; intuition discriminate.
Qed.

Ltac no_ValueError :=
  apply check_no_ValueError;
  first [solve [left; eauto 6] | solve [right; eauto 7]].

Lemma PeriodData_init_out_of_range period pco pa rb pu fcr fees :
  ~ fields_in_range period pco pa rb pu fcr fees ->
  exists e, PeriodData_init period pco pa rb pu fcr fees = Raise e
            /\ forall msg, ~ In (ValueError msg) e.
Proof.
  intros Hout. unfold PeriodData_init. rewrite match_errors.
  rewrite bool_decide_eq_false_2.
  - eexists. split; [reflexivity|].
    intros msg Hin.
    repeat (apply in_app_or in Hin; destruct Hin as [Hin|Hin];
            [revert Hin; no_ValueError|]).
    revert Hin; no_ValueError.
  - intros E. apply Hout.
    apply app_nil_iff in E as [E1%int_ge_nil E].
    apply app_nil_iff in E as [E2%int_le_nil E].
    apply app_nil_iff in E as [E3%ge_nil E].
    apply app_nil_iff in E as [E4%le_nil E].
    apply app_nil_iff in E as [E5%ge_nil E].
    apply app_nil_iff in E as [E6%le_nil E].
    apply app_nil_iff in E as [E7%ge_nil E].
    apply app_nil_iff in E as [E8%ge_nil E].
    apply app_nil_iff in E as [E9%ge_nil E].
    apply app_nil_iff in E as [E10%le_nil E11%ge_nil].
    unfold fields_in_range. repeat split; (lia || lra).
Qed.

Lemma fields_in_range_dec period pco pa rb pu fcr fees :
  fields_in_range period pco pa rb pu fcr fees
  \/ ~ fields_in_range period pco pa rb pu fcr fees.
Proof.
  assert (D : forall P Q : Prop,
             P \/ ~ P -> Q \/ ~ Q -> (P /\ Q) \/ ~ (P /\ Q)) by tauto.
  unfold fields_in_range.
  repeat apply D;
    match goal with
    | |- (?a <= ?b)%Z \/ _ => destruct (Z_le_dec a b); auto
    | |- (?a <= ?b)%R \/ _ => destruct (Rle_dec a b); auto
    end.
Qed.

Lemma competing_risks_accepts p :
  (prob_charge_off p + prob_attrition p <= 1)%R ->
  _competing_risks_valid p = Ok p.
Proof.
  intros Hs. unfold _competing_risks_valid.
  destruct (Rgt_dec _ _); [lra | reflexivity].
Qed.

Lemma competing_risks_rejects p :
  ~ (prob_charge_off p + prob_attrition p <= 1)%R ->
  _competing_risks_valid p
  = Raise [ValueError
             [Text "prob_charge_off ("; FloatRepr (prob_charge_off p);
              Text ") + prob_attrition ("; FloatRepr (prob_attrition p);
              Text ") exceeds 1.0"]].
Proof.
  intros Hs. unfold _competing_risks_valid.
  destruct (Rgt_dec _ _); [reflexivity | lra].
Qed.

Lemma validated_period_in_range p :
  validated_period p ->
  fields_in_range (period p) (prob_charge_off p) (prob_attrition p)
    (revolving_balance p) (purchase_amount p) (finance_charge_rate p)
    (other_fees p)
  /\ (prob_charge_off p + prob_attrition p <= 1)%R.
Proof.
  unfold validated_period. intros Hv.
  destruct (fields_in_range_dec (period p) (prob_charge_off p)
              (prob_attrition p) (revolving_balance p) (purchase_amount p)
              (finance_charge_rate p) (other_fees p)) as [Hin|Hout].
  - split; [exact Hin|].
    rewrite PeriodData_init_in_range in Hv by exact Hin.
    destruct (Rle_dec (prob_charge_off p + prob_attrition p) 1) as [|Hs];
      [assumption|].
    rewrite competing_risks_rejects in Hv by exact Hs. discriminate.
  - apply PeriodData_init_out_of_range in Hout as (e & He & _).
    rewrite He in Hv. discriminate.
Qed.

Lemma validated_parameters_in_range g :
  validated_parameters g -> parameters_in_range g.
Proof.
  unfold validated_parameters, GlobalParameters_init. rewrite match_errors.
  match goal with
  | |- context [bool_decide ?P] => destruct (bool_decide_reflect P) as [E|E]
  end; [intros _ | intros H; discriminate H].
  apply app_nil_iff in E as [E1%ge_nil E].
  apply app_nil_iff in E as [E2%le_nil E].
  apply app_nil_iff in E as [E3%ge_nil E4%int_gt_nil].
  unfold parameters_in_range. repeat split; (lia || lra).
Qed.

Lemma periods_sequential_accepts c :
  actual_indices (periods c) = expected_indices (length (periods c)) ->
  _periods_sequential c = Ok c.
Proof.
  intros E. unfold _periods_sequential.
  rewrite bool_decide_eq_false_2; [reflexivity|]. intros Hne. apply Hne, E.
Qed.

Lemma periods_sequential_rejects c :
  actual_indices (periods c) <> expected_indices (length (periods c)) ->
  _periods_sequential c
  = Raise [ValueError
             [Text "Periods must be sequential starting at 1. Got: ";
              IntListRepr (firstn 5 (actual_indices (periods c)));
              Text "..."]].
Proof.
  intros E. unfold _periods_sequential.
  rewrite bool_decide_eq_true_2; [reflexivity | exact E].
Qed.

Lemma validated_sequential c :
  validated c ->
  actual_indices (periods c) = expected_indices (length (periods c)).
Proof.
  intros (_ & _ & Hc). unfold CohortInput_init in Hc.
  destruct (decide (actual_indices (periods c)
                    = expected_indices (length (periods c)))) as [E|E];
    [exact E|].
  rewrite (periods_sequential_rejects (mkCohortInput _ _)) in Hc by exact E.
  discriminate.
Qed.

Lemma lookup_map {A B} (f : A -> B) (l : list A) (i : nat) :
  map f l !! i = f <$> l !! i.
Proof. apply (list_lookup_fmap f l i). Qed.

(** The period index of row [k] (0-based) of a validated cohort is [k + 1]. *)
Lemma validated_period_index c k p :
  validated c -> periods c !! k = Some p -> period p = Z.of_nat (S k).
Proof.
  intros Hv Hk. apply validated_sequential in Hv.
  assert (H : actual_indices (periods c) !! k = Some (period p)).
  { unfold actual_indices. rewrite lookup_map, Hk. reflexivity. }
  rewrite Hv in H. unfold expected_indices in H.
  rewrite lookup_map in H.
  apply lookup_lt_Some in Hk.
  rewrite lookup_seq_lt in H by exact Hk. simpl in H. congruence.
Qed.

(** ** Claims about validation *)

(** C8 (amended): constructing a [CohortInput] succeeds exactly when the
    period indices are [1, 2, ..., N] for [N] the number of periods, and then
    returns the cohort of the given periods and parameters; when it fails,
    the error is the validator's [ValueError], whose message lists the first
    five actual indices and no other list (the expected indices are not in
    it). *)
Theorem sequential_period_validation ps g :
  ((exists c, CohortInput_init ps g = Ok c)
   <-> actual_indices ps = expected_indices (length ps))
  /\ (actual_indices ps = expected_indices (length ps) ->
      CohortInput_init ps g = Ok (mkCohortInput ps g))
  /\ (forall e,
        CohortInput_init ps g = Raise e ->
        exists msg,
          e = [ValueError msg]
          /\ lists_indices msg (firstn 5 (actual_indices ps))
          /\ forall l, lists_indices msg l -> l = firstn 5 (actual_indices ps)).
Proof.
  unfold CohortInput_init.
  destruct (decide (actual_indices ps = expected_indices (length ps)))
    as [E|E].
  - rewrite (periods_sequential_accepts (mkCohortInput ps g)) by exact E.
    split; [split; eauto|]. split; [reflexivity|]. discriminate.
  - rewrite (periods_sequential_rejects (mkCohortInput ps g)) by exact E.
    cbn [periods].
    split; [split; [intros [c Hc]; discriminate | contradiction]|].
    split; [contradiction|].
    intros e He. injection He as <-. eexists. split; [reflexivity|].
    unfold lists_indices. cbn [In]. split; [auto|].
    intros l [H|[H|[H|[]]]]; try discriminate. injection H as <-. reflexivity.
Qed.

(** C8 as stated fails: for the periods [1, 3] the message lists [1, 3] and
    not the expected [1, 2]. *)
Lemma sequential_message_omits_expected :
  ~ sequential_claim [make_period 1; make_period 3] default_params.
Proof.
  intros [_ Hmsg]. unfold sequential_message_with_expected in Hmsg.
  unfold CohortInput_init in Hmsg.
  rewrite (periods_sequential_rejects (mkCohortInput _ _)) in Hmsg
    by (cbn; discriminate).
  destruct (Hmsg _ eq_refl) as (msg & E & _ & Hexp).
  injection E as <-. unfold lists_indices in Hexp. cbn in Hexp.
  destruct Hexp as [H|[H|[H|[]]]]; discriminate.
Qed.

(** ** Series: sums, products and running folds *)

Local Open Scope list_scope.
Local Open Scope R_scope.

Lemma fold_left_Rplus (s : Series) a : fold_left Rplus s a = a + sum s.
Proof.
  unfold sum. revert a. induction s as [|x s IH]; intros a; simpl.
  - lra.
  - rewrite IH, (IH (0 + x)). lra.
Qed.

Lemma sum_nil : sum [] = 0.
Proof. reflexivity. Qed.

Lemma sum_cons x s : sum (x :: s) = x + sum s.
Proof. unfold sum at 1. simpl. rewrite fold_left_Rplus. lra. Qed.

Lemma sum_snoc (s : Series) x : sum (s ++ [x]) = sum s + x.
Proof.
  induction s as [|y s IH]; simpl.
  - rewrite sum_cons, sum_nil. lra.
  - rewrite !sum_cons, IH. lra.
Qed.

Lemma sum_take_S (s : Series) k x :
  s !! k = Some x -> sum (take (S k) s) = sum (take k s) + x.
Proof. intros Hk. rewrite (take_S_r _ _ _ Hk). apply sum_snoc. Qed.

Lemma prod_snoc (s : Series) x : prod (s ++ [x]) = prod s * x.
Proof.
  unfold prod. induction s as [|y s IH]; simpl; [lra|]. rewrite IH. lra.
Qed.

Lemma prod_take_S (s : Series) k x :
  s !! k = Some x -> prod (take (S k) s) = prod (take k s) * x.
Proof. intros Hk. rewrite (take_S_r _ _ _ Hk). apply prod_snoc. Qed.


Lemma prod_zero s : prod s = 0 -> exists j, s !! j = Some 0.
Proof.
  unfold prod. induction s as [|x s IH]; simpl; [lra|].
  intros H. apply Rmult_integral in H as [->|H].
  - exists 0%nat. reflexivity.
  - destruct (IH H) as [j Hj]. exists (S j). exact Hj.
Qed.

Lemma shift1_accumulate a s :
  firstn (length s) (a :: accumulate Rmult a s) = prefix_products a s.
Proof.
  revert a. induction s as [|x s IH]; intros a; simpl; [reflexivity|].
  rewrite IH. reflexivity.
Qed.

(** [cumprod().shift(1, fill_value=1.0)] holds the products of the strict
    prefixes. *)
Lemma shift1_cumprod s : shift1 1 (cumprod s) = prefix_products 1 s.
Proof.
  unfold shift1. rewrite length_cumprod.
  destruct s as [|x s]; simpl; [reflexivity|].
  rewrite shift1_accumulate, Rmult_1_l. reflexivity.
Qed.

Lemma lookup_prefix_products a s k :
  (k < length s)%nat ->
  prefix_products a s !! k = Some (a * prod (take k s)).
Proof.
  revert a k. induction s as [|x s IH]; intros a k Hk; simpl in Hk; [lia|].
  destruct k as [|k]; simpl.
  - f_equal. unfold prod. simpl. lra.
  - rewrite IH by lia. f_equal. unfold prod. simpl. lra.
Qed.

Lemma lookup_shift1_cumprod s k :
  (k < length s)%nat ->
  shift1 1 (cumprod s) !! k = Some (prod (take k s)).
Proof.
  intros Hk. rewrite shift1_cumprod, lookup_prefix_products by exact Hk.
  f_equal. lra.
Qed.

Lemma last_accumulate_Rplus a s :
  last (a :: accumulate Rplus a s) = Some (a + sum s).
Proof.
  revert a. induction s as [|x s IH]; intros a.
  - simpl. rewrite sum_nil. f_equal. lra.
  - change (accumulate Rplus a (x :: s))
      with ((a + x) :: accumulate Rplus (a + x) s).
    rewrite last_cons_cons, IH, sum_cons. f_equal. lra.
Qed.

(** The last entry of [cumsum()] is [sum()]. *)
Lemma last_cumsum s : s <> [] -> last (cumsum s) = Some (sum s).
Proof.
  destruct s as [|x s]; [congruence|]. intros _. simpl cumsum.
  rewrite last_accumulate_Rplus, sum_cons. reflexivity.
Qed.

(** ** The derived columns, row by row *)

Section Rows.
Variables (c : CohortInput) (k : nat) (p : PeriodData).
Hypothesis Hp : periods c !! k = Some p.

Let N := IZR (num_accounts (parameters c)).
Let P := prod (take k (survival_factor_of c)).

Lemma row_lt : (k < length (periods c))%nat.
Proof. eapply lookup_lt_Some, Hp. Qed.

Lemma row_field f : field f c !! k = Some (f p).
Proof. unfold field. rewrite lookup_map, Hp. reflexivity. Qed.

Lemma row_broadcast x : broadcast x c !! k = Some x.
Proof. unfold broadcast. apply lookup_replicate_2, row_lt. Qed.

Ltac row_of H :=
  rewrite ?lookup_zip_with, ?lookup_map, ?H, ?row_field, ?row_broadcast;
  reflexivity.

Lemma row_survival_factor :
  survival_factor_of c !! k
  = Some (1 - prob_charge_off p - prob_attrition p).
Proof.
  unfold survival_factor_of, sub, rsub. row_of row_field.
Qed.

Lemma row_cumulative_survival : cumulative_survival_of c !! k = Some P.
Proof.
  unfold cumulative_survival_of. apply lookup_shift1_cumprod.
  rewrite length_survival_factor_of. apply row_lt.
Qed.

Lemma row_active_accounts_bop : active_accounts_bop_of c !! k = Some (N * P).
Proof.
  unfold active_accounts_bop_of, mul. row_of row_cumulative_survival.
Qed.

Lemma row_charge_off_accounts :
  charge_off_accounts_of c !! k = Some (N * P * prob_charge_off p).
Proof.
  unfold charge_off_accounts_of, mul. row_of row_active_accounts_bop.
Qed.

Lemma row_attrition_accounts :
  attrition_accounts_of c !! k = Some (N * P * prob_attrition p).
Proof.
  unfold attrition_accounts_of, mul. row_of row_active_accounts_bop.
Qed.

Lemma row_finance_charge :
  finance_charge_of c !! k
  = Some (N * P * revolving_balance p * finance_charge_rate p).
Proof.
  unfold finance_charge_of, mul. row_of row_active_accounts_bop.
Qed.

Lemma row_interchange :
  interchange_of c !! k
  = Some (N * P * purchase_amount p * flat_interchange_rate (parameters c)).
Proof.
  unfold interchange_of, mul. row_of row_active_accounts_bop.
Qed.

Lemma row_fee_income : fee_income_of c !! k = Some (N * P * other_fees p).
Proof.
  unfold fee_income_of, mul. row_of row_active_accounts_bop.
Qed.

Lemma row_total_revenue :
  total_revenue_of c !! k
  = Some (N * P * revolving_balance p * finance_charge_rate p
          + N * P * purchase_amount p * flat_interchange_rate (parameters c)
          + N * P * other_fees p).
Proof.
  unfold total_revenue_of, add.
  rewrite !lookup_zip_with, row_finance_charge, row_interchange,
    row_fee_income.
  reflexivity.
Qed.

Lemma row_charge_off_loss :
  charge_off_loss_of c !! k
  = Some (N * P * prob_charge_off p * revolving_balance p).
Proof.
  unfold charge_off_loss_of, mul. row_of row_active_accounts_bop.
Qed.

Lemma row_net_income :
  net_income_of c !! k
  = Some (N * P * revolving_balance p * finance_charge_rate p
          + N * P * purchase_amount p * flat_interchange_rate (parameters c)
          + N * P * other_fees p
          - N * P * prob_charge_off p * revolving_balance p).
Proof.
  unfold net_income_of, sub.
  rewrite lookup_zip_with, row_total_revenue, row_charge_off_loss.
  reflexivity.
Qed.

Lemma row_discount_factor :
  discount_factor_of c !! k
  = Some (1 / Rpower (1 + discount_rate (parameters c))
                     (IZR (period p) / 12)).
Proof.
  unfold discount_factor_of, rtruediv, pow, radd, truediv, period_of.
  rewrite lookup_map, lookup_zip_with, !lookup_map, row_broadcast, row_field.
  reflexivity.
Qed.

Lemma row_pv_net_income :
  pv_net_income_of c !! k
  = Some ((N * P * revolving_balance p * finance_charge_rate p
           + N * P * purchase_amount p * flat_interchange_rate (parameters c)
           + N * P * other_fees p
           - N * P * prob_charge_off p * revolving_balance p)
          * (1 / Rpower (1 + discount_rate (parameters c))
                        (IZR (period p) / 12))).
Proof.
  unfold pv_net_income_of, mul.
  rewrite lookup_zip_with, row_net_income, row_discount_factor.
  reflexivity.
Qed.

End Rows.

(** ** Validated cohorts *)

Lemma validated_period_intro p :
  fields_in_range (period p) (prob_charge_off p) (prob_attrition p)
    (revolving_balance p) (purchase_amount p) (finance_charge_rate p)
    (other_fees p) ->
  prob_charge_off p + prob_attrition p <= 1 ->
  validated_period p.
Proof.
  intros Hin Hs. unfold validated_period.
  rewrite PeriodData_init_in_range by exact Hin.
  rewrite competing_risks_accepts by exact Hs. destruct p; reflexivity.
Qed.

Lemma validated_parameters_intro g :
  parameters_in_range g -> validated_parameters g.
Proof.
  intros (Hf & Hd & Hn). unfold validated_parameters, GlobalParameters_init.
  rewrite match_errors. rewrite bool_decide_eq_true_2; [destruct g; reflexivity|].
  repeat (apply app_nil_iff; split);
    first [apply ge_nil | apply le_nil | apply int_gt_nil]; (lia || lra).
Qed.

Lemma validated_intro ps g :
  Forall (fun p =>
            fields_in_range (period p) (prob_charge_off p) (prob_attrition p)
              (revolving_balance p) (purchase_amount p)
              (finance_charge_rate p) (other_fees p)
            /\ prob_charge_off p + prob_attrition p <= 1) ps ->
  parameters_in_range g ->
  actual_indices ps = expected_indices (length ps) ->
  validated (mkCohortInput ps g).
Proof.
  intros Hps Hg Hseq. split; [|split]; cbn [periods parameters].
  - eapply Forall_impl; [exact Hps|]. intros p [Hin Hs].
    apply validated_period_intro; assumption.
  - apply validated_parameters_intro, Hg.
  - apply (periods_sequential_accepts (mkCohortInput ps g)), Hseq.
Qed.

(** Checks a concrete cohort against the validators. *)
Ltac validate :=
  apply validated_intro;
  [ repeat constructor; cbn; (lia || lra)
  | unfold parameters_in_range; cbn; repeat split; (lia || lra)
  | reflexivity ].

Lemma validated_empty_cohort : validated empty_cohort.
Proof. validate. Qed.

Lemma validated_single_period_cohort : validated single_period_cohort.
Proof. validate. Qed.

Lemma validated_two_period_cohort : validated two_period_cohort.
Proof. validate. Qed.

Lemma validated_row c k p :
  validated c -> periods c !! k = Some p ->
  fields_in_range (period p) (prob_charge_off p) (prob_attrition p)
    (revolving_balance p) (purchase_amount p) (finance_charge_rate p)
    (other_fees p)
  /\ prob_charge_off p + prob_attrition p <= 1.
Proof.
  intros (Hps & _ & _) Hk. apply validated_period_in_range.
  eapply Forall_lookup_1; eassumption.
Qed.

Lemma validated_num_accounts c :
  validated c -> 0 < IZR (num_accounts (parameters c)).
Proof.
  intros (_ & Hg & _). apply validated_parameters_in_range in Hg.
  destruct Hg as (_ & _ & Hn). apply IZR_lt. exact Hn.
Qed.

Lemma validated_num_accounts_nonzero c :
  validated c -> num_accounts (parameters c) <> 0%Z.
Proof.
  intros (_ & Hg & _). apply validated_parameters_in_range in Hg.
  destruct Hg as (_ & _ & Hn). lia.
Qed.


(** ** Running the pipeline on a cohort *)

Lemma on_survival_table_intro c h (P : DataFrame -> Prop) :
  (periods c <> [] -> P (table_after Survival c)) ->
  on_survival_table c h P.
Proof.
  intros HP. unfold on_survival_table.
  destruct (decide (periods c = [])) as [E|Hne].
  - destruct (survival_table_empty c h E) as [h' ->]. auto.
  - destruct (survival_table_run c h Hne) as (r & h' & -> & Hr). eauto.
Qed.

Lemma on_valuation_intro c h (P : DataFrame -> ValuationSummary -> Prop) :
  num_accounts (parameters c) <> 0%Z ->
  (periods c <> [] -> P (table_after NetIncomePV c) (summary_of c)) ->
  on_valuation c h P.
Proof.
  intros HN HP. unfold on_valuation.
  destruct (decide (periods c = [])) as [E|Hne].
  - destruct (run_valuation_empty c h E) as [h' ->]. auto.
  - destruct (run_valuation_run c h Hne HN) as (r & h' & -> & Hr). eauto.
Qed.

(** Every validated cohort with a period is valued: [run_valuation] returns
    a table and a summary. *)
Lemma run_valuation_returns c h :
  validated c -> periods c <> [] ->
  returns (run_valuation c) h
    (fun '(r, s) h' =>
       h' !! r = Some (table_after NetIncomePV c) /\ s = summary_of c).
Proof.
  intros Hv Hne.
  destruct (run_valuation_run c h Hne (validated_num_accounts_nonzero c Hv))
    as (r & h' & Hrun & Hr).
  exists (r, summary_of c), h'. auto.
Qed.

(** ** Claims about the pipeline *)

(** C1 (at the failing input): the cohort with no periods and the default
    parameters passes validation, and [run_valuation] raises
    [KeyError: 'prob_charge_off'] on it from [compute_survival], instead of
    returning a table and a summary. *)
Theorem run_valuation_empty_cohort_raises :
  validated empty_cohort
  /\ forall h, exists h',
       run_valuation empty_cohort h = (Raise (KeyError "prob_charge_off"), h').
Proof.
  split; [exact validated_empty_cohort|].
  intros h. apply run_valuation_empty. reflexivity.
Qed.

Lemma conservation_invariant c k :
  (k <= length (periods c))%nat ->
  sum (take k (charge_off_accounts_of c))
  + sum (take k (attrition_accounts_of c))
  + IZR (num_accounts (parameters c)) * prod (take k (survival_factor_of c))
  = IZR (num_accounts (parameters c)).
Proof.
  induction k as [|k IH]; intros Hk.
  - rewrite !take_0, sum_nil. unfold prod. simpl. lra.
  - assert (Hlt : (k < length (periods c))%nat) by lia.
    destruct (lookup_lt_is_Some_2 _ _ Hlt) as [p Hp].
    rewrite (sum_take_S _ _ _ (row_charge_off_accounts c k p Hp)).
    rewrite (sum_take_S _ _ _ (row_attrition_accounts c k p Hp)).
    rewrite (prod_take_S _ _ _ (row_survival_factor c k p Hp)).
    specialize (IH ltac:(lia)). lra.
Qed.

(** C2: for every validated cohort the table of [compute_survival] has one
    row per period, and over every prefix of its rows the charge-off accounts
    plus the attrition accounts plus the last row's [active_accounts_bop]
    times its [survival_factor] add up to [num_accounts], in exact
    arithmetic.  (On the cohort without periods [compute_survival] raises and
    there is no table.) *)
Theorem account_conservation c h :
  validated c -> on_survival_table c h (conservation c).
Proof.
  intros _. apply on_survival_table_intro. intros _.
  split; [reflexivity|].
  exists (charge_off_accounts_of c), (attrition_accounts_of c),
    (active_accounts_bop_of c), (survival_factor_of c).
  repeat split; try reflexivity;
    try solve [apply length_charge_off_accounts_of
              | apply length_attrition_accounts_of
              | apply length_active_accounts_bop_of
              | apply length_survival_factor_of].
  intros k b s Hb Hs.
  assert (Hlt : (k < length (periods c))%nat).
  { rewrite <- length_survival_factor_of. eapply lookup_lt_Some, Hs. }
  destruct (lookup_lt_is_Some_2 _ _ Hlt) as [p Hp].
  rewrite (row_active_accounts_bop c k p Hp) in Hb. injection Hb as <-.
  pose proof (conservation_invariant c (S k) ltac:(lia)) as Hinv.
  rewrite (prod_take_S _ _ _ Hs) in Hinv. lra.
Qed.

Lemma account_conservation_witness :
  validated two_period_cohort
  /\ on_survival_table two_period_cohort ∅ (conservation two_period_cohort).
Proof.
  split; [exact validated_two_period_cohort|].
  apply account_conservation, validated_two_period_cohort.
Defined.





Lemma length_period_of c : length (period_of c) = length (periods c).
Proof. series_length. Qed.

Lemma Rpower_base_1 y : Rpower 1 y = 1.
Proof. unfold Rpower. rewrite ln_1, Rmult_0_r. apply exp_0. Qed.

Lemma Rpower_pos x y : 0 < Rpower x y.
Proof. unfold Rpower. apply exp_pos. Qed.

Lemma discount_decreasing b y z :
  1 < b -> y < z -> 1 / Rpower b (z / 12) < 1 / Rpower b (y / 12).
Proof.
  intros Hb Hyz.
  assert (Hlt : Rpower b (y / 12) < Rpower b (z / 12))
    by (apply Rpower_lt; lra).
  pose proof (Rpower_pos b (y / 12)) as Hy.
  pose proof (Rpower_pos b (z / 12)) as Hz.
  unfold Rdiv. rewrite !Rmult_1_l.
  apply Rinv_lt_contravar; [nra | exact Hlt].
Qed.

Lemma mul_ones (s d : Series) :
  length d = length s ->
  (forall k x, d !! k = Some x -> x = 1) ->
  mul s d = s.
Proof.
  intros Hlen Hd. apply list_eq. intros k. unfold mul.
  rewrite lookup_zip_with.
  destruct (s !! k) as [a|] eqn:Hs; [|reflexivity]. simpl.
  destruct (d !! k) as [x|] eqn:Hx; simpl.
  - rewrite (Hd _ _ Hx). f_equal. lra.
  - apply lookup_ge_None in Hx. apply lookup_lt_Some in Hs. lia.
Qed.

(** C4 (amended): for every validated cohort, each row's [discount_factor]
    is [1 / (1 + discount_rate) ^ (period / 12)]; for a positive rate it is,
    in exact real arithmetic, strictly smaller on a row with a larger period;
    for a zero rate every factor is 1 and the summary's [total_pv] equals its
    [total_net_income].  (On the cohort without periods [run_valuation]
    raises and there is no table.  In binary64 rounding breaks the strict
    decrease: see the last part of this file.) *)
Theorem discount_factor_properties c h :
  validated c -> on_valuation c h (discounting c).
Proof.
  intros Hv.
  apply on_valuation_intro; [apply validated_num_accounts_nonzero, Hv|].
  intros _. unfold discounting. split; [reflexivity|].
  exists (period_of c), (discount_factor_of c).
  assert (Hrow : forall k x d,
             period_of c !! k = Some x ->
             discount_factor_of c !! k = Some d ->
             d = 1 / Rpower (1 + discount_rate (parameters c)) (x / 12)).
  { intros k x d Hx Hd.
    assert (Hlt : (k < length (periods c))%nat).
    { rewrite <- length_period_of. eapply lookup_lt_Some, Hx. }
    destruct (lookup_lt_is_Some_2 _ _ Hlt) as [p Hp].
    unfold period_of in Hx. rewrite (row_field c k p Hp) in Hx.
    rewrite (row_discount_factor c k p Hp) in Hd. congruence. }
  split; [split; [reflexivity | apply length_period_of]|].
  split; [split; [reflexivity | apply length_discount_factor_of]|].
  split; [exact Hrow|]. split.
  - intros Hrate i j xi xj di dj Hxi Hxj Hdi Hdj Hlt.
    rewrite (Hrow _ _ _ Hxi Hdi), (Hrow _ _ _ Hxj Hdj).
    apply discount_decreasing; lra.
  - intros Hrate.
    assert (Hone : forall k d, discount_factor_of c !! k = Some d -> d = 1).
    { intros k d Hd.
      assert (Hlt : (k < length (period_of c))%nat).
      { rewrite length_period_of, <- length_discount_factor_of.
        eapply lookup_lt_Some, Hd. }
      destruct (lookup_lt_is_Some_2 _ _ Hlt) as [x Hx].
      rewrite (Hrow _ _ _ Hx Hd), Hrate, Rplus_0_r, Rpower_base_1. lra. }
    split; [exact Hone|].
    cbn [summary_of total_pv total_net_income].
    unfold pv_net_income_of. rewrite mul_ones; [reflexivity| |exact Hone].
    rewrite length_discount_factor_of, length_net_income_of. reflexivity.
Qed.

Lemma discount_factor_properties_witness :
  validated two_period_cohort
  /\ on_valuation two_period_cohort ∅ (discounting two_period_cohort).
Proof.
  split; [exact validated_two_period_cohort|].
  apply discount_factor_properties, validated_two_period_cohort.
Defined.

(** C5: for every validated cohort with at least one period, the last entry
    of the [cumulative_pv] column of the completed table is the summary's
    [total_pv], which is the sum of the [pv_net_income] column. *)
Theorem cumulative_pv_is_total_pv c h :
  validated c -> periods c <> [] ->
  on_valuation c h cumulative_pv_identity.
Proof.
  intros Hv Hne.
  apply on_valuation_intro; [apply validated_num_accounts_nonzero, Hv|].
  intros _.
  exists (pv_net_income_of c), (cumulative_pv_of c).
  split; [split; [reflexivity | apply length_pv_net_income_of]|].
  split; [split; [reflexivity|]|].
  { unfold cumulative_pv_of. rewrite length_cumsum.
    apply length_pv_net_income_of. }
  split; [reflexivity|].
  cbn [summary_of total_pv]. unfold cumulative_pv_of. apply last_cumsum.
  apply nonempty_length. rewrite length_pv_net_income_of.
  apply nonempty_length, Hne.
Qed.

Lemma cumulative_pv_is_total_pv_witness :
  validated two_period_cohort
  /\ periods two_period_cohort <> []
  /\ on_valuation two_period_cohort ∅ cumulative_pv_identity.
Proof.
  assert (Hne : periods two_period_cohort <> []) by discriminate.
  split; [exact validated_two_period_cohort|]. split; [exact Hne|].
  exact (cumulative_pv_is_total_pv _ _ validated_two_period_cohort Hne).
Defined.


Lemma has_column_final c name (s : Series) :
  assoc name (columns (table_after NetIncomePV c)) = Some s ->
  length s = length (periods c) ->
  has_column (table_after NetIncomePV c) name s.
Proof. intros Hs Hlen. split; [exact Hs | exact Hlen]. Qed.




(** C6: on the single-period cohort of the reference scenario, row 1 of the
    table of [run_valuation] has [active_accounts_bop = 1000],
    [finance_charge = 75000], [interchange = 20000], [fee_income = 25000],
    [charge_off_loss = 100000], [net_income = 20000] and
    [discount_factor = 1.10 ^ (-1/12)], in exact arithmetic. *)
Theorem reference_scenario h :
  on_valuation single_period_cohort h (fun t _ => reference_row t).
Proof.
  apply on_valuation_intro; [discriminate|]. intros _.
  unfold reference_row.
  repeat split; cbn; do 2 f_equal; try lra.
  replace (1 + 0.10) with 1.10 by lra.
  replace (-1 / 12) with (- (1 / 12)) by lra.
  rewrite Rpower_Ropp. lra.
Qed.

(** The two-period test: the second period starts with
    [1000 * (1 - 0.02 - 0.03) = 950] accounts. *)
Example two_period_active_accounts h :
  on_valuation two_period_cohort h (fun t _ =>
    exists a b,
      assoc "active_accounts_bop" (columns t) = Some [a; b]
      /\ a = 1000 /\ b = 950).
Proof.
  apply on_valuation_intro; [discriminate|]. intros _. cbn.
  eexists _, _. split; [reflexivity|]. split; lra.
Qed.

(** The full charge-off test: nobody is left for the second period and its
    revenue is zero. *)
Example full_charge_off_period1 h :
  on_valuation
    (mkCohortInput
       [mkPeriodData 1 1 0 5000 1000 0.015 25;
        mkPeriodData 2 0 0 5000 1000 0.015 25] default_params) h
    (fun t _ =>
       exists a b x y,
         assoc "active_accounts_bop" (columns t) = Some [a; b]
         /\ assoc "total_revenue" (columns t) = Some [x; y]
         /\ b = 0 /\ y = 0).
Proof.
  apply on_valuation_intro; [discriminate|]. intros _. cbn.
  eexists _, _, _, _. split; [reflexivity|]. split; [reflexivity|].
  split; lra.
Qed.

(** ** Stage framing *)

Import Framing.

Lemma fresh_ne (h : gmap ref DataFrame) r df :
  h !! r = Some df -> fresh (dom h) <> r.
Proof. intros Hr E. rewrite <- E, fresh_None in Hr. discriminate. Qed.

Lemma list_difference_cons (x : string) l k :
  list_difference (x :: l) k
  = if decide (x ∈ k) then list_difference l k else x :: list_difference l k.
Proof. reflexivity. Qed.

Lemma names_set_column df k v :
  names (set_column df k v)
  = (names df ++ list_difference [k] (names df))%list.
Proof.
  unfold names, set_column. cbn [columns].
  induction (columns df) as [|[k' v'] l IH]; cbn [assign map fst].
  - reflexivity.
  - destruct (String.eqb_spec k k') as [->|Hne]; cbn [map fst].
    + rewrite list_difference_cons.
      rewrite decide_True by apply list_elem_of_here.
      rewrite app_nil_r. reflexivity.
    + rewrite IH, !list_difference_cons.
      destruct (decide (k ∈ map fst l)) as [Hin|Hout].
      * rewrite decide_True by (apply list_elem_of_further, Hin). reflexivity.
      * rewrite decide_False; [reflexivity|].
        intros [E|Hin]%elem_of_cons; [congruence | contradiction].
Qed.

Lemma list_difference_snoc (l k : list string) x :
  x ∉ l -> list_difference l (k ++ [x]) = list_difference l k.
Proof.
  induction l as [|y l IH]; intros Hx; [reflexivity|].
  apply not_elem_of_cons in Hx as [Hne Hx].
  rewrite !list_difference_cons, (IH Hx).
  destruct (decide (y ∈ k)) as [Hin|Hout].
  - rewrite decide_True by (apply elem_of_app; left; exact Hin). reflexivity.
  - rewrite decide_False; [reflexivity|].
    intros [Hin|Hin%list_elem_of_singleton]%elem_of_app; congruence.
Qed.

Lemma names_assign_all kvs df :
  NoDup (map fst kvs) ->
  names (assign_all kvs df)
  = (names df ++ list_difference (map fst kvs) (names df))%list.
Proof.
  revert df. induction kvs as [|[k v] kvs IH]; intros df Hnd.
  - cbn. rewrite app_nil_r. reflexivity.
  - cbn [map fst] in Hnd. apply NoDup_cons in Hnd as [Hk Hnd].
    cbn [assign_all fold_left]. fold (assign_all kvs (set_column df k v)).
    rewrite (IH _ Hnd), names_set_column. cbn [map fst snd].
    rewrite !list_difference_cons.
    destruct (decide (k ∈ names df)) as [Hin|Hout]; cbn [list_difference].
    + rewrite app_nil_r. reflexivity.
    + rewrite list_difference_snoc by exact Hk.
      rewrite <- app_assoc. reflexivity.
Qed.

Lemma assoc_assign_all kvs df c :
  ~ In c (map fst kvs) ->
  assoc c (columns (assign_all kvs df)) = assoc c (columns df).
Proof.
  revert df. induction kvs as [|[k v] kvs IH]; intros df Hc; [reflexivity|].
  cbn [assign_all fold_left]. fold (assign_all kvs (set_column df k v)).
  cbn [map fst In] in Hc.
  rewrite IH by tauto. rewrite assoc_set_column. cbn [fst snd].
  destruct (String.eqb_spec c k) as [->|_]; [tauto | reflexivity].
Qed.

Lemma list_difference_fresh (l k : list string) :
  Forall (fun c => ~ In c k) l -> list_difference l k = l.
Proof.
  induction l as [|x l IH]; intros H; [reflexivity|].
  apply Forall_cons in H as [Hx H]. rewrite list_difference_cons.
  rewrite decide_False by (rewrite list_elem_of_In; exact Hx).
  rewrite (IH H). reflexivity.
Qed.

(** What [framing] asks of the frame a stage returns, for a frame built by
    assigning the stage's columns in order. *)
Lemma framing_assign_all (s : stage) kvs (h : gmap ref DataFrame) r df :
  h !! r = Some df ->
  map fst kvs = writes s ->
  NoDup (writes s) ->
  run_stage s r h
  = (Ok (fresh (dom h)), <[fresh (dom h) := assign_all kvs df]> h) ->
  framing s h r df.
Proof.
  intros Hr Hkvs Hnd Hrun. unfold framing.
  eexists _, _. split; [exact Hrun|]. split; [apply fresh_None|].
  split.
  { rewrite lookup_insert_ne; [exact Hr|].
    intros E. rewrite <- E, fresh_None in Hr. discriminate. }
  assert (Hindex : index (assign_all kvs df) = index df).
  { clear. revert df. induction kvs as [|[k v] kvs IH]; intros df;
      [reflexivity|].
    cbn [assign_all fold_left]. fold (assign_all kvs (set_column df k v)).
    rewrite IH. reflexivity. }
  assert (Hnames : names (assign_all kvs df)
                   = (names df ++ list_difference (writes s) (names df))%list).
  { rewrite <- Hkvs. apply names_assign_all. rewrite Hkvs. exact Hnd. }
  assert (Hcols : forall c, ~ In c (writes s) ->
                    assoc c (columns (assign_all kvs df))
                    = assoc c (columns df)).
  { intros c Hc. apply assoc_assign_all. rewrite Hkvs. exact Hc. }
  split; [exact Hindex|]. split; [exact Hnames|]. split; [exact Hcols|].
  intros Hfresh. split.
  - rewrite Hnames, (list_difference_fresh _ _ Hfresh). reflexivity.
  - intros c Hc. apply Hcols. intros Hw.
    rewrite Forall_forall in Hfresh.
    apply (Hfresh c); [apply list_elem_of_In, Hw | exact Hc].
Qed.

Ltac present_columns Hreads :=
  unfold reads in Hreads; rewrite ?Forall_cons in Hreads;
  repeat match goal with
    | H : _ /\ _ |- _ => destruct H
    | H : In _ (names _) |- _ => apply assoc_In in H as [? H]
    end.

Ltac distinct_names :=
  unfold writes; repeat (apply NoDup_cons; split);
  [.. | apply NoDup_nil_2];
  rewrite ?elem_of_cons, ?elem_of_nil; intuition discriminate.

(** C9 (amended): each stage, run on any frame that has the columns the
    stage reads, returns a new frame object and leaves the store it ran in as
    it was, the frame it was given included; the returned frame has the same
    index, the input's columns followed by those of the stage's columns the
    input lacked, and the input's values in every column the stage does not
    assign.  When the input has none of the stage's columns (the frames
    [run_valuation] passes), the stage's columns are all appended and every
    column that already existed keeps its values. *)
Theorem stage_framing (s : stage) (h : gmap ref DataFrame) (r : ref)
    (df : DataFrame) :
  h !! r = Some df ->
  Forall (fun c => In c (names df)) (reads s) ->
  framing s h r df.
Proof.
  intros Hr Hreads.
  destruct s; present_columns Hreads.
  - eapply (framing_assign_all Survival
              [("survival_factor", _); ("cumulative_survival", _);
               ("active_accounts_bop", _); ("charge_off_accounts", _);
               ("attrition_accounts", _)]);
      [exact Hr | reflexivity | distinct_names |].
    cbn [run_stage]. erewrite compute_survival_run by eassumption.
    reflexivity.
  - eapply (framing_assign_all Revenue
              [("finance_charge", _); ("interchange", _); ("fee_income", _);
               ("total_revenue", _)]);
      [exact Hr | reflexivity | distinct_names |].
    cbn [run_stage]. erewrite compute_revenue_run by eassumption.
    reflexivity.
  - eapply (framing_assign_all Costs
              [("charge_off_loss", _); ("total_cost", _)]);
      [exact Hr | reflexivity | distinct_names |].
    cbn [run_stage]. erewrite compute_costs_run by eassumption.
    reflexivity.
  - eapply (framing_assign_all NetIncomePV
              [("net_income", _); ("discount_factor", _);
               ("pv_net_income", _); ("cumulative_pv", _)]);
      [exact Hr | reflexivity | distinct_names |].
    cbn [run_stage]. erewrite compute_net_income_and_pv_run by eassumption.
    reflexivity.
Qed.

(** Column names of a concrete frame: membership and its negation. *)
Ltac in_names := cbn; solve [repeat first [left; reflexivity | right]].
Ltac not_in_names := cbn; solve [intuition discriminate].
Ltac all_names tac :=
  repeat (apply Forall_cons; split); [.. | apply Forall_nil_2]; tac.

Lemma stage_framing_witness :
  single_table_store !! 0%nat = Some (input_table single_period_cohort)
  /\ Forall (fun c => In c (names (input_table single_period_cohort)))
       (reads Survival)
  /\ framing Survival single_table_store 0%nat
       (input_table single_period_cohort).
Proof.
  assert (H0 : single_table_store !! 0%nat
               = Some (input_table single_period_cohort))
    by apply lookup_singleton_eq.
  assert (Hreads : Forall (fun c => In c (names (input_table single_period_cohort)))
                     (reads Survival))
    by (unfold reads; all_names in_names).
  split; [exact H0|]. split; [exact Hreads|].
  exact (stage_framing Survival _ _ _ H0 Hreads).
Defined.

(** C9 as stated fails: on a frame that has the columns [compute_survival]
    reads and already has a [survival_factor] column, with the value 0.5,
    the returned frame has 0.95 in that column: an existing column is
    overwritten, not kept, and is not appended again. *)
Lemma stage_overwrites_existing_column :
  survival_factor_store !! 0%nat = Some table_with_survival_factor
  /\ Forall (fun c => In c (names table_with_survival_factor))
       (reads Survival)
  /\ ~ frames Survival survival_factor_store 0%nat table_with_survival_factor.
Proof.
  assert (H0 : survival_factor_store !! 0%nat
               = Some table_with_survival_factor)
    by apply lookup_singleton_eq.
  split; [exact H0|].
  split; [unfold reads; all_names in_names|].
  intros (r' & df' & Hrun & _ & _ & _ & _ & Hcols).
  cbn [run_stage] in Hrun.
  erewrite compute_survival_run in Hrun by (exact H0 || reflexivity).
  pose proof (f_equal fst Hrun) as Href.
  pose proof (f_equal snd Hrun) as Hstore. clear Hrun.
  cbn [fst snd] in Href, Hstore. injection Href as <-.
  apply (f_equal (fun m : gmap ref DataFrame =>
                    m !! fresh (dom survival_factor_store))) in Hstore.
  rewrite !lookup_insert_eq in Hstore. injection Hstore as <-.
  specialize (Hcols "survival_factor").
  rewrite !assoc_set_column in Hcols. cbn in Hcols.
  assert (Hin : In "survival_factor" (names table_with_survival_factor))
    by in_names.
  specialize (Hcols Hin). injection Hcols as Hcols. lra.
Qed.

(** In [run_valuation] every stage is given a frame that has the columns it
    reads and none of the columns it assigns, whatever the cohort. *)
Lemma run_valuation_stage_inputs (s : stage) c :
  Forall (fun x => In x (names (table_before s c))) (reads s)
  /\ Forall (fun x => ~ In x (names (table_before s c))) (writes s).
Proof.
  destruct s; split; unfold reads, writes;
    first [all_names in_names | all_names not_in_names].
Qed.

(** The frames the stages of [run_valuation] are given and return, for a
    cohort with a period: each stage receives the frame the previous one
    returned. *)
Lemma run_valuation_stages c h :
  periods c <> [] ->
  returns (build_period_table c) h (fun r0 h0 =>
    h0 !! r0 = Some (table_before Survival c)
    /\ returns (run_stage Survival r0) h0 (fun r1 h1 =>
      h1 !! r1 = Some (table_before Revenue c)
      /\ returns (run_stage Revenue r1) h1 (fun r2 h2 =>
        h2 !! r2 = Some (table_before Costs c)
        /\ returns (run_stage Costs r2) h2 (fun r3 h3 =>
          h3 !! r3 = Some (table_before NetIncomePV c)
          /\ returns (run_stage NetIncomePV r3) h3 (fun r4 h4 =>
            h4 !! r4 = Some (table_after NetIncomePV c)))))).
Proof.
  intros Hne. unfold returns.
  eexists _, _. split; [apply build_period_table_nonempty, Hne|].
  split; [apply lookup_insert_eq|].
  eexists _, _. split; [apply (stage_run Survival c), lookup_insert_eq|].
  split; [apply lookup_insert_eq|].
  eexists _, _. split; [apply (stage_run Revenue c), lookup_insert_eq|].
  split; [apply lookup_insert_eq|].
  eexists _, _. split; [apply (stage_run Costs c), lookup_insert_eq|].
  split; [apply lookup_insert_eq|].
  eexists _, _. split; [apply (stage_run NetIncomePV c), lookup_insert_eq|].
  apply lookup_insert_eq.
Qed.

(** * Further properties of the engine *)

Import Fixtures.

(** ** The summary *)

Lemma sum_take_all (s : Series) : sum (take (length s) s) = sum s.
Proof. rewrite firstn_all. reflexivity. Qed.

Lemma prod_take_all (s : Series) : prod (take (length s) s) = prod s.
Proof. rewrite firstn_all. reflexivity. Qed.

Lemma last_row {A} (l : list A) : last l = l !! pred (length l).
Proof. apply last_lookup. Qed.

(** The last row of a cohort with a period. *)
Lemma last_period c :
  periods c <> [] ->
  exists p, periods c !! pred (length (periods c)) = Some p.
Proof.
  intros Hne. apply lookup_lt_is_Some_2.
  apply nonempty_length in Hne. lia.
Qed.

Lemma final_survival_rate_of c :
  periods c <> [] ->
  final_survival_rate (summary_of c) = prod (survival_factor_of c).
Proof.
  intros Hne. destruct (last_period c Hne) as [p Hp].
  cbn [summary_of final_survival_rate].
  rewrite !last_row, length_cumulative_survival_of, length_survival_factor_of.
  rewrite (row_cumulative_survival c _ p Hp), (row_survival_factor c _ p Hp).
  cbn [default].
  rewrite <- (prod_take_all (survival_factor_of c)),
    length_survival_factor_of.
  apply nonempty_length in Hne.
  replace (length (periods c)) with (S (pred (length (periods c)))) at 2
    by lia.
  rewrite (prod_take_S _ _ _ (row_survival_factor c _ p Hp)). reflexivity.
Qed.



(** X2: for every validated cohort, the accounts that charged off, the
    accounts that attrited and the accounts the summary reports as surviving
    ([num_accounts * final_survival_rate]) add up to [num_accounts]. *)
Theorem summary_account_conservation c h :
  validated c ->
  on_valuation c h (fun t s =>
    exists co att,
      has_column t "charge_off_accounts" co
      /\ has_column t "attrition_accounts" att
      /\ sum co + sum att
         + IZR (num_accounts (parameters c)) * final_survival_rate s
         = IZR (num_accounts (parameters c))).
Proof.
  intros Hv.
  apply on_valuation_intro; [apply validated_num_accounts_nonzero, Hv|].
  intros Hne.
  exists (charge_off_accounts_of c), (attrition_accounts_of c).
  split; [apply has_column_final; [reflexivity | series_length]|].
  split; [apply has_column_final; [reflexivity | series_length]|].
  rewrite (final_survival_rate_of c Hne).
  pose proof (conservation_invariant c (length (periods c)) ltac:(lia)) as H.
  rewrite <- (length_charge_off_accounts_of c) in H at 1.
  rewrite <- (length_attrition_accounts_of c) in H at 1.
  rewrite <- (length_survival_factor_of c) in H at 1.
  rewrite !sum_take_all, prod_take_all in H. exact H.
Qed.

Lemma summary_account_conservation_witness :
  validated two_period_cohort
  /\ on_valuation two_period_cohort ∅ (fun t s =>
       exists co att,
         has_column t "charge_off_accounts" co
         /\ has_column t "attrition_accounts" att
         /\ sum co + sum att
            + IZR (num_accounts (parameters two_period_cohort))
              * final_survival_rate s
            = IZR (num_accounts (parameters two_period_cohort))).
Proof.
  split; [exact validated_two_period_cohort|].
  apply summary_account_conservation, validated_two_period_cohort.
Defined.

Lemma sum_sub (a b : Series) :
  length a = length b -> sum (sub a b) = sum a - sum b.
Proof.
  unfold sub. revert b. induction a as [|x a IH]; intros [|y b] Hlen;
    simpl in Hlen; try discriminate.
  - simpl. rewrite sum_nil. lra.
  - simpl. rewrite !sum_cons, IH by lia. lra.
Qed.

(** X3: in exact real arithmetic, the summary of every validated cohort is
    consistent with itself and with the table: the totals are the column
    sums, total net income is total revenue minus total cost,
    [pv_per_account] times [num_accounts] is [total_pv], [num_periods] is the
    number of rows and of periods, and [num_accounts] is the cohort's. *)
Theorem summary_identities c h :
  validated c ->
  on_valuation c h (fun t s =>
    (exists tr tc ni pv,
       has_column t "total_revenue" tr /\ has_column t "total_cost" tc
       /\ has_column t "net_income" ni /\ has_column t "pv_net_income" pv
       /\ total_revenue s = sum tr /\ total_cost s = sum tc
       /\ total_net_income s = sum ni /\ total_pv s = sum pv)
    /\ total_net_income s = total_revenue s - total_cost s
    /\ pv_per_account s * IZR (num_accounts (parameters c)) = total_pv s
    /\ num_periods s = index t
    /\ num_periods s = length (periods c)
    /\ summary_num_accounts s = num_accounts (parameters c)).
Proof.
  intros Hv.
  apply on_valuation_intro; [apply validated_num_accounts_nonzero, Hv|].
  intros _. split.
  - exists (total_revenue_of c), (charge_off_loss_of c), (net_income_of c),
      (pv_net_income_of c).
    do 4 (split; [apply has_column_final; [reflexivity | series_length]|]).
    repeat split.
  - cbn [summary_of total_net_income total_revenue total_cost pv_per_account
           total_pv num_periods summary_num_accounts].
    split.
    { unfold net_income_of. apply sum_sub. series_length. }
    split; [|repeat split].
    pose proof (validated_num_accounts c Hv). field. lra.
Qed.

Lemma summary_identities_witness :
  validated two_period_cohort
  /\ on_valuation two_period_cohort ∅ (fun t s =>
       num_periods s = 2%nat
       /\ total_net_income s = total_revenue s - total_cost s).
Proof.
  split; [exact validated_two_period_cohort|].
  pose proof (summary_identities two_period_cohort ∅
                validated_two_period_cohort) as H.
  unfold on_valuation in *.
  destruct (run_valuation two_period_cohort ∅) as [[[r s]|e] h']; [|exact H].
  destruct H as (t & Ht & _ & Hni & _ & _ & Hn & _).
  exists t. split; [exact Ht|]. split; [exact Hn | exact Hni].
Defined.

(** ** [compute_summary] as a function of any frame *)

Lemma bind_reads_only {A B} (m : M A) (k : A -> M B) :
  (forall h, (m h).2 = h) ->
  (forall a h, (k a h).2 = h) ->
  forall h, (bind m k h).2 = h.
Proof.
  intros Hm Hk h. unfold bind. specialize (Hm h).
  destruct (m h) as [[a|e] h']; simpl in *; subst; [apply Hk | reflexivity].
Qed.

Lemma getitem_reads_only r c h : (getitem r c h).2 = h.
Proof.
  unfold getitem, bind, deref. destruct (h !! r) as [df|]; [|reflexivity].
  destruct (assoc c (columns df)); reflexivity.
Qed.

Lemma iloc_last_reads_only s h : (iloc_last s h).2 = h.
Proof. unfold iloc_last. destruct (last s); reflexivity. Qed.

Lemma len_reads_only r h : (len r h).2 = h.
Proof. unfold len, bind, deref. destruct (h !! r); reflexivity. Qed.

(** Goes through [compute_summary] statement by statement: none of them
    writes to the store. *)
Ltac summary_only_reads n :=
  unfold compute_summary;
  repeat first
    [ apply bind_reads_only;
      [ first [ apply getitem_reads_only | apply iloc_last_reads_only
              | apply len_reads_only
              | intros ?; destruct (Z.eqb n 0); reflexivity ]
      | intros ? ]
    | intros ?; reflexivity ].

(** X4: [compute_summary] only reads: whatever frame reference and account
    number it is given, and whether it returns or raises, it leaves every
    frame of the store as it was. *)
Theorem compute_summary_reads_only r n h : (compute_summary r n h).2 = h.
Proof.
  revert h. unfold compute_summary.
  repeat first
    [ apply bind_reads_only;
      [ first [ apply getitem_reads_only | apply iloc_last_reads_only
              | apply len_reads_only
              | intros h; destruct (Z.eqb n 0); reflexivity ]
      | intros ? ]
    | intros h; reflexivity ].
Qed.

(** X5: the failure modes of [compute_summary] on a frame that has the
    [pv_net_income] column: with [num_accounts = 0] it raises
    [ZeroDivisionError] (whatever else the frame holds), and with a non-zero
    [num_accounts] of absolute value below [2 ^ 1023] (one that Python
    converts to a float for the division) on a frame whose columns are there
    but have no rows it raises [IndexError] at [.iloc[-1]]; the store is
    unchanged in both cases. *)
Theorem compute_summary_failures h r df pv :
  h !! r = Some df ->
  assoc "pv_net_income" (columns df) = Some pv ->
  compute_summary r 0 h = (Raise ZeroDivisionError, h)
  /\ (forall n tr tc ni,
        n <> 0%Z ->
        (Z.abs n < 2 ^ 1023)%Z ->
        assoc "total_revenue" (columns df) = Some tr ->
        assoc "total_cost" (columns df) = Some tc ->
        assoc "net_income" (columns df) = Some ni ->
        assoc "cumulative_survival" (columns df) = Some [] ->
        compute_summary r n h = (Raise IndexError, h)).
Proof.
  intros Hr Hpv. rewrite <- (insert_id h r df Hr). split.
  - unfold compute_summary. step. reflexivity.
  - intros n tr tc ni Hn _ Htr Htc Hni Hcs. unfold compute_summary.
    step. apply Z.eqb_neq in Hn. rewrite Hn.
    erewrite bind_Ok by reflexivity.
    do 4 step. reflexivity.
Qed.

Lemma compute_summary_failures_witness :
  empty_results_store !! 0%nat = Some empty_results
  /\ assoc "pv_net_income" (columns empty_results) = Some []
  /\ (Z.abs 1000 < 2 ^ 1023)%Z
  /\ compute_summary 0%nat 0 empty_results_store
     = (Raise ZeroDivisionError, empty_results_store)
  /\ compute_summary 0%nat 1000 empty_results_store
     = (Raise IndexError, empty_results_store).
Proof.
  assert (H0 : empty_results_store !! 0%nat = Some empty_results)
    by apply lookup_singleton_eq.
  assert (Hpv : assoc "pv_net_income" (columns empty_results) = Some [])
    by reflexivity.
  destruct (compute_summary_failures _ _ _ _ H0 Hpv) as [Hz Hi].
  split; [exact H0|]. split; [exact Hpv|]. split; [reflexivity|].
  split; [exact Hz|].
  apply (Hi 1000%Z [] [] []); (discriminate || reflexivity).
Defined.

(** ** The survival cascade beyond monotonic decay *)

Lemma prod_has_zero (s : Series) j : s !! j = Some 0 -> prod s = 0.
Proof.
  unfold prod. revert j. induction s as [|x s IH]; intros [|j] Hj;
    try discriminate; simpl in *.
  - injection Hj as ->. lra.
  - rewrite (IH j Hj). lra.
Qed.

Lemma prod_take_zero (s : Series) j k :
  s !! j = Some 0 -> (j < k)%nat -> prod (take k s) = 0.
Proof.
  intros Hj Hjk. apply (prod_has_zero _ j).
  rewrite lookup_take_lt by exact Hjk. exact Hj.
Qed.

(** Rewrites row [k] of a derived column of the final table with its row
    lemma, for [k] below the number of periods. *)
Ltac zero_row c j row HP :=
  eexists; split; [apply has_column_final; [reflexivity | series_length]|];
  intros k [Hjk Hk];
  change (index (table_after NetIncomePV c)) with (length (periods c)) in Hk;
  let p := fresh "p" in
  let Hp := fresh "Hp" in
  destruct (lookup_lt_is_Some_2 _ _ Hk) as [p Hp];
  rewrite (row c k p Hp); f_equal;
  rewrite (HP k Hjk); lra.

(** X6: in exact real arithmetic, in the table of every validated cohort,
    once a period has [prob_charge_off + prob_attrition = 1] (as real
    numbers), every later period starts with
    zero active accounts and has zero exits, revenue, cost, net income and
    present value. *)
Theorem total_exit_empties_later_periods c h :
  validated c ->
  on_valuation c h (fun t _ =>
    forall j p,
      periods c !! j = Some p ->
      prob_charge_off p + prob_attrition p = 1 ->
      Forall (zero_after t j) account_scaled_columns).
Proof.
  intros Hv.
  apply on_valuation_intro; [apply validated_num_accounts_nonzero, Hv|].
  intros _ j p Hp Hone.
  assert (HP : forall k, (j < k)%nat ->
                         prod (take k (survival_factor_of c)) = 0).
  { intros k Hjk. apply (prod_take_zero _ j); [|exact Hjk].
    rewrite (row_survival_factor c j p Hp). f_equal. lra. }
  unfold account_scaled_columns, zero_after.
  repeat (apply Forall_cons; split); [..|apply Forall_nil_2].
  - zero_row c j row_active_accounts_bop HP.
  - zero_row c j row_charge_off_accounts HP.
  - zero_row c j row_attrition_accounts HP.
  - zero_row c j row_finance_charge HP.
  - zero_row c j row_interchange HP.
  - zero_row c j row_fee_income HP.
  - zero_row c j row_total_revenue HP.
  - zero_row c j row_charge_off_loss HP.
  - zero_row c j row_charge_off_loss HP.
  - zero_row c j row_net_income HP.
  - zero_row c j row_pv_net_income HP.
Qed.

Lemma validated_full_charge_off_cohort : validated full_charge_off_cohort.
Proof.
  apply validated_intro.
  - repeat (apply Forall_cons; split); [..|apply Forall_nil_2];
      (split; [unfold fields_in_range; cbn; repeat split; (lia || lra)
              | cbn; lra]).
  - unfold parameters_in_range; cbn; repeat split; (lia || lra).
  - reflexivity.
Qed.

Lemma total_exit_empties_later_periods_witness :
  validated full_charge_off_cohort
  /\ on_valuation full_charge_off_cohort ∅ (fun t _ =>
       Forall (zero_after t 0) account_scaled_columns).
Proof.
  split; [exact validated_full_charge_off_cohort|].
  pose proof (total_exit_empties_later_periods full_charge_off_cohort ∅
                validated_full_charge_off_cohort) as H.
  unfold on_valuation in *.
  destruct (run_valuation full_charge_off_cohort ∅) as [[[r s]|e] h'];
    [|exact H].
  destruct H as (t & Ht & H). exists t. split; [exact Ht|].
  apply (H 0%nat (mkPeriodData 1 1 0 5000 1000 0.015 25));
    [reflexivity | cbn; lra].
Defined.

Lemma prod_positive (s : Series) :
  Forall (fun x => 0 < x) s -> 0 < prod s.
Proof.
  unfold prod. induction 1 as [|x s Hx _ IH]; simpl; [lra | nra].
Qed.

Lemma prefix_prod_strict_step (s : Series) j x :
  Forall (fun x => 0 < x < 1) s ->
  s !! j = Some x ->
  prod (take (S j) s) < prod (take j s).
Proof.
  intros Hs Hj. rewrite (prod_take_S _ _ _ Hj).
  assert (Hpos : 0 < prod (take j s)).
  { apply prod_positive, Forall_take.
    eapply Forall_impl; [exact Hs|]. simpl. intros; lra. }
  pose proof (Forall_lookup_1 _ _ _ _ Hs Hj). simpl in *. nra.
Qed.

Lemma prefix_prod_strict (s : Series) i j :
  Forall (fun x => 0 < x < 1) s ->
  (i < j <= length s)%nat ->
  prod (take j s) < prod (take i s).
Proof.
  intros Hs [Hij Hj]. induction Hij as [|j Hij IH].
  - destruct (lookup_lt_is_Some_2 s i ltac:(lia)) as [x Hx].
    eapply prefix_prod_strict_step; eassumption.
  - destruct (lookup_lt_is_Some_2 s j ltac:(lia)) as [x Hx].
    pose proof (prefix_prod_strict_step s j x Hs Hx).
    specialize (IH ltac:(lia)). lra.
Qed.

Lemma survival_factor_strict c :
  Forall (fun p => 0 < prob_charge_off p + prob_attrition p < 1) (periods c) ->
  Forall (fun x => 0 < x < 1) (survival_factor_of c).
Proof.
  intros Hps. apply Forall_lookup. intros k x Hk.
  assert (Hlt : (k < length (periods c))%nat).
  { rewrite <- length_survival_factor_of. eapply lookup_lt_Some, Hk. }
  destruct (lookup_lt_is_Some_2 _ _ Hlt) as [p Hp].
  rewrite (row_survival_factor c k p Hp) in Hk. injection Hk as <-.
  pose proof (Forall_lookup_1 _ _ _ _ Hps Hp). simpl in *. lra.
Qed.

(** X7: in exact real arithmetic, for a validated cohort in which every
    period has [0 < prob_charge_off + prob_attrition < 1],
    [active_accounts_bop] is
    strictly smaller on every later row, and the summary's
    [final_survival_rate] is strictly between 0 and 1. *)
Theorem strict_decay c h :
  validated c ->
  Forall (fun p => 0 < prob_charge_off p + prob_attrition p < 1) (periods c) ->
  on_valuation c h (fun t s =>
    (exists bop,
       has_column t "active_accounts_bop" bop
       /\ forall i j x y,
            (i < j)%nat -> bop !! i = Some x -> bop !! j = Some y -> y < x)
    /\ 0 < final_survival_rate s < 1).
Proof.
  intros Hv Hps.
  apply on_valuation_intro; [apply validated_num_accounts_nonzero, Hv|].
  intros Hne.
  pose proof (validated_num_accounts c Hv) as HN.
  pose proof (survival_factor_strict c Hps) as Hsf.
  split.
  - exists (active_accounts_bop_of c).
    split; [apply has_column_final; [reflexivity | series_length]|].
    intros i j x y Hij Hi Hj.
    assert (Hjlt : (j < length (periods c))%nat).
    { rewrite <- length_active_accounts_bop_of. eapply lookup_lt_Some, Hj. }
    destruct (lookup_lt_is_Some_2 (periods c) i ltac:(lia)) as [pi Hpi].
    destruct (lookup_lt_is_Some_2 (periods c) j Hjlt) as [pj Hpj].
    rewrite (row_active_accounts_bop c i pi Hpi) in Hi.
    rewrite (row_active_accounts_bop c j pj Hpj) in Hj.
    injection Hi as <-. injection Hj as <-.
    assert (Hlen : (i < j <= length (survival_factor_of c))%nat)
      by (rewrite length_survival_factor_of; lia).
    pose proof (prefix_prod_strict _ i j Hsf Hlen). nra.
  - rewrite (final_survival_rate_of c Hne). split.
    + apply prod_positive. eapply Forall_impl; [exact Hsf|]. simpl.
      intros; lra.
    + rewrite <- (prod_take_all (survival_factor_of c)).
      apply nonempty_length in Hne.
      assert (Hlen : (0 < length (survival_factor_of c)
                      <= length (survival_factor_of c))%nat)
        by (rewrite length_survival_factor_of; lia).
      pose proof (prefix_prod_strict _ 0%nat _ Hsf Hlen) as H.
      rewrite take_0 in H. unfold prod at 2 in H. simpl in H. exact H.
Qed.

Lemma strict_decay_witness :
  validated two_period_cohort
  /\ Forall (fun p => 0 < prob_charge_off p + prob_attrition p < 1)
       (periods two_period_cohort)
  /\ on_valuation two_period_cohort ∅ (fun t s =>
       (exists bop,
          has_column t "active_accounts_bop" bop
          /\ forall i j x y,
               (i < j)%nat -> bop !! i = Some x -> bop !! j = Some y -> y < x)
       /\ 0 < final_survival_rate s < 1).
Proof.
  assert (H : Forall (fun p => 0 < prob_charge_off p + prob_attrition p < 1)
                (periods two_period_cohort)).
  { repeat (apply Forall_cons; split); [..|apply Forall_nil_2]; cbn; lra. }
  split; [exact validated_two_period_cohort|]. split; [exact H|].
  exact (strict_decay _ _ validated_two_period_cohort H).
Defined.

(** ** Running sums and discounting *)





Lemma ln_nonneg b : 1 <= b -> 0 <= ln b.
Proof.
  intros [Hb| <-]; [|rewrite ln_1; lra].
  rewrite <- ln_1. left. apply ln_increasing; lra.
Qed.

Lemma Rpower_ge_1 b y : 1 <= b -> 0 <= y -> 1 <= Rpower b y.
Proof.
  intros Hb Hy. unfold Rpower.
  pose proof (ln_nonneg b Hb) as Hln.
  pose proof (exp_ineq1_le (y * ln b)). nra.
Qed.

Lemma discount_factor_bounds b y :
  1 <= b -> 0 <= y -> 0 < 1 / Rpower b y <= 1.
Proof.
  intros Hb Hy. pose proof (Rpower_ge_1 b y Hb Hy) as H1.
  unfold Rdiv. rewrite Rmult_1_l. split.
  - apply Rinv_0_lt_compat. lra.
  - rewrite <- Rinv_1. apply Rinv_le_contravar; lra.
Qed.

(** X9: in exact real arithmetic, in the table of every validated cohort
    every [discount_factor] is in (0, 1], so discounting never enlarges a
    cash flow: on each row the
    absolute value of [pv_net_income] is at most that of [net_income]. *)
Theorem discounting_never_enlarges c h :
  validated c ->
  on_valuation c h (fun t _ =>
    exists ni dfac pv,
      has_column t "net_income" ni
      /\ has_column t "discount_factor" dfac
      /\ has_column t "pv_net_income" pv
      /\ (forall k d, dfac !! k = Some d -> 0 < d <= 1)
      /\ (forall k x y,
            ni !! k = Some x -> pv !! k = Some y -> Rabs y <= Rabs x)).
Proof.
  intros Hv.
  apply on_valuation_intro; [apply validated_num_accounts_nonzero, Hv|].
  intros _.
  exists (net_income_of c), (discount_factor_of c), (pv_net_income_of c).
  do 3 (split; [apply has_column_final; [reflexivity | series_length]|]).
  assert (Hd : forall k p, periods c !! k = Some p ->
                 0 < 1 / Rpower (1 + discount_rate (parameters c))
                                (IZR (period p) / 12) <= 1).
  { intros k p Hp.
    destruct (validated_row c k p Hv Hp) as [([Hper _] & _) _].
    destruct Hv as (_ & Hg & _).
    apply validated_parameters_in_range in Hg. destruct Hg as (_ & Hr & _).
    apply IZR_le in Hper.
    apply discount_factor_bounds; lra. }
  split.
  - intros k d Hk.
    assert (Hlt : (k < length (periods c))%nat).
    { rewrite <- length_discount_factor_of. eapply lookup_lt_Some, Hk. }
    destruct (lookup_lt_is_Some_2 _ _ Hlt) as [p Hp].
    rewrite (row_discount_factor c k p Hp) in Hk. injection Hk as <-.
    apply (Hd k p Hp).
  - intros k x y Hx Hy.
    assert (Hlt : (k < length (periods c))%nat).
    { rewrite <- length_net_income_of. eapply lookup_lt_Some, Hx. }
    destruct (lookup_lt_is_Some_2 _ _ Hlt) as [p Hp].
    rewrite (row_net_income c k p Hp) in Hx.
    rewrite (row_pv_net_income c k p Hp) in Hy.
    injection Hx as <-. injection Hy as <-.
    pose proof (Hd k p Hp) as Hdk.
    rewrite Rabs_mult.
    rewrite (Rabs_right (1 / _)) by lra.
    match goal with |- Rabs ?a * _ <= _ => pose proof (Rabs_pos a) end.
    nra.
Qed.

Lemma discounting_never_enlarges_witness :
  validated two_period_cohort
  /\ on_valuation two_period_cohort ∅ (fun t _ =>
       exists ni dfac pv,
         has_column t "net_income" ni
         /\ has_column t "discount_factor" dfac
         /\ has_column t "pv_net_income" pv
         /\ (forall k d, dfac !! k = Some d -> 0 < d <= 1)
         /\ (forall k x y,
               ni !! k = Some x -> pv !! k = Some y -> Rabs y <= Rabs x)).
Proof.
  split; [exact validated_two_period_cohort|].
  apply discounting_never_enlarges, validated_two_period_cohort.
Defined.

(** ** What a run does to the store *)

Lemma insert_fresh_lookup (h : gmap ref DataFrame) t r d :
  h !! r = Some d -> (<[fresh (dom h) := t]> h) !! r = Some d.
Proof.
  intros Hr. rewrite lookup_insert_ne by (eapply fresh_ne; exact Hr).
  exact Hr.
Qed.

Lemma fresh_outside (h h' : gmap ref DataFrame) :
  (forall r d, h !! r = Some d -> h' !! r = Some d) ->
  h !! fresh (dom h') = None.
Proof.
  intros Hsub. destruct (h !! fresh (dom h')) as [d|] eqn:E; [|reflexivity].
  apply Hsub in E. rewrite fresh_None in E. discriminate.
Qed.

Lemma bind_ret_reads_only {A B} (m : M A) (f : A -> B) h :
  (m h).2 = h ->
  (bind m (fun a => ret (f a)) h).2 = h
  /\ (forall b, (bind m (fun a => ret (f a)) h).1 = Ok b ->
                exists a, b = f a).
Proof.
  unfold bind, ret. destruct (m h) as [[a|e] h']; simpl; intros ->.
  - split; [reflexivity|]. intros b [= <-]. eauto.
  - split; [reflexivity|]. discriminate.
Qed.

(** X10: whatever the cohort and whatever the outcome, [run_valuation]
    leaves every frame that was in the store as it was; the table it returns
    is an object that did not exist before the call. *)
Theorem run_valuation_preserves_store c h :
  (forall r0 d,
     h !! r0 = Some d -> (run_valuation c h).2 !! r0 = Some d)
  /\ (forall r s,
        (run_valuation c h).1 = Ok (r, s) ->
        h !! r = None /\ is_Some ((run_valuation c h).2 !! r)).
Proof.
  unfold run_valuation.
  destruct (decide (periods c = [])) as [E|Hne].
  - erewrite bind_Ok by (apply build_period_table_empty; exact E).
    erewrite bind_Raise; cycle 1.
    { unfold compute_survival.
      erewrite bind_Ok by (apply copy_run, lookup_insert_eq).
      erewrite bind_Raise by (apply getitem_focus_missing; reflexivity).
      reflexivity. }
    cbn [fst snd]. split; [|discriminate].
    intros r0 d Hr. do 2 apply insert_fresh_lookup. exact Hr.
  - erewrite bind_Ok by (apply build_period_table_nonempty; exact Hne).
    erewrite bind_Ok by (apply (stage_run Survival c), lookup_insert_eq).
    erewrite bind_Ok by (apply (stage_run Revenue c), lookup_insert_eq).
    erewrite bind_Ok by (apply (stage_run Costs c), lookup_insert_eq).
    erewrite bind_Ok by (apply (stage_run NetIncomePV c), lookup_insert_eq).
    match goal with
    | |- context [bind (compute_summary ?r ?n) ?k ?h4] =>
        assert (Hro : forall h0, (compute_summary r n h0).2 = h0)
          by summary_only_reads n;
        destruct (bind_ret_reads_only (compute_summary r n) (pair r) h4
                    (Hro h4)) as [Hst Hres];
        change (bind (compute_summary r n) k h4)
          with (bind (compute_summary r n) (fun a => ret (r, a)) h4);
        rewrite Hst
    end.
    split.
    + intros r0 d Hr. do 5 apply insert_fresh_lookup. exact Hr.
    + intros r s Hrs. apply Hres in Hrs as [a Ha].
      injection Ha as -> _. split.
      * match goal with
        | |- h !! fresh (dom ?h3) = None => apply (fresh_outside h h3)
        end.
        intros r0 d Hr. do 4 apply insert_fresh_lookup. exact Hr.
      * rewrite lookup_insert_eq. eauto.
Qed.

(** ** Stages as functions of any frame *)

Lemma assign_same {A} (k : string) (v : A) (l : list (string * A)) :
  assoc k l = Some v -> assign k v l = l.
Proof.
  induction l as [|[k' v'] l IH]; simpl; [discriminate|].
  destruct (String.eqb_spec k k') as [->|Hne].
  - intros [= ->]. reflexivity.
  - intros Hk. rewrite IH by exact Hk. reflexivity.
Qed.

Lemma set_column_same df k v :
  assoc k (columns df) = Some v -> set_column df k v = df.
Proof.
  intros Hk. destruct df as [n cols]. unfold set_column. simpl in *.
  rewrite assign_same by exact Hk. reflexivity.
Qed.

(** Splits the hypothesis on the columns a stage reads. *)
Ltac split_reads Hreads :=
  unfold reads in Hreads; rewrite ?Forall_cons in Hreads;
  repeat match goal with
    | H : _ /\ _ |- _ => destruct H
    | H : In _ (names _) |- _ => apply assoc_In in H as [? H]
    end.

(** The frame a second run returns is the frame it was given. *)
Ltac same_frame :=
  do 2 f_equal; repeat (rewrite set_column_same by find_column); reflexivity.

(** X11: every stage is idempotent on any frame that has the columns it
    reads: run again on the frame it returned, it returns a frame with the
    same columns and values. *)
Theorem stage_idempotent (s : stage) (h : gmap ref DataFrame) (r : ref)
    (df : DataFrame) :
  h !! r = Some df ->
  Forall (fun c => In c (names df)) (reads s) ->
  exists r1 df1 r2,
    run_stage s r h = (Ok r1, <[r1 := df1]> h)
    /\ run_stage s r1 (<[r1 := df1]> h)
       = (Ok r2, <[r2 := df1]> (<[r1 := df1]> h)).
Proof.
  intros Hr Hreads. destruct s; split_reads Hreads; cbn [run_stage].
  - erewrite compute_survival_run by eassumption.
    eexists _, _, _. split; [reflexivity|].
    erewrite compute_survival_run
      by first [apply lookup_insert_eq | find_column].
    same_frame.
  - erewrite compute_revenue_run by eassumption.
    eexists _, _, _. split; [reflexivity|].
    erewrite compute_revenue_run
      by first [apply lookup_insert_eq | find_column].
    same_frame.
  - erewrite compute_costs_run by eassumption.
    eexists _, _, _. split; [reflexivity|].
    erewrite compute_costs_run
      by first [apply lookup_insert_eq | find_column].
    same_frame.
  - erewrite compute_net_income_and_pv_run by eassumption.
    eexists _, _, _. split; [reflexivity|].
    erewrite compute_net_income_and_pv_run
      by first [apply lookup_insert_eq | find_column].
    same_frame.
Qed.

Lemma stage_idempotent_witness :
  single_table_store !! 0%nat = Some (input_table single_period_cohort)
  /\ Forall (fun c => In c (names (input_table single_period_cohort)))
       (reads Survival)
  /\ exists r1 df1 r2,
       run_stage Survival 0%nat single_table_store
       = (Ok r1, <[r1 := df1]> single_table_store)
       /\ run_stage Survival r1 (<[r1 := df1]> single_table_store)
          = (Ok r2, <[r2 := df1]> (<[r1 := df1]> single_table_store)).
Proof.
  assert (H0 : single_table_store !! 0%nat
               = Some (input_table single_period_cohort))
    by apply lookup_singleton_eq.
  assert (Hreads : Forall (fun c => In c (names (input_table single_period_cohort)))
                     (reads Survival))
    by (unfold reads; all_names in_names).
  split; [exact H0|]. split; [exact Hreads|].
  exact (stage_idempotent Survival _ _ _ H0 Hreads).
Defined.

Lemma assoc_missing {A} (q : string) (l : list (string * A)) :
  ~ In q (map fst l) -> assoc q l = None.
Proof.
  intros Hq. destruct (assoc q l) as [v|] eqn:E; [|reflexivity].
  exfalso. apply Hq, assoc_In. eauto.
Qed.

(** Enumerates the ways a concrete list splits as [pre ++ c :: post]. *)
Ltac enumerate_split H pre :=
  destruct pre as [|? pre]; cbn [app] in H;
  [ first [discriminate H | injection H as ? ?; subst]
  | first [discriminate H | injection H as ? H; subst; enumerate_split H pre] ].

Ltac column_missing :=
  rewrite ?assoc_set_column; eval_names; apply assoc_missing; assumption.

(** Runs a stage up to the first column it cannot find. *)
Ltac run_to_missing Hr :=
  eexists; split;
  [ erewrite bind_Ok by (apply copy_run; exact Hr);
    repeat step;
    erewrite bind_Raise by (apply getitem_focus_missing; column_missing);
    reflexivity
  | intros r0 d Hr0; apply insert_fresh_lookup; exact Hr0 ].

(** X12: a stage given a frame that lacks one of the columns it reads raises
    [KeyError] for the first such column in the order the stage reads them,
    returns no frame, and leaves every frame of the store (the one it was
    given included) as it was. *)
Theorem stage_missing_column (s : stage) (h : gmap ref DataFrame) (r : ref)
    (df : DataFrame) (pre : list string) (c : string) (post : list string) :
  h !! r = Some df ->
  reads s = pre ++ c :: post ->
  Forall (fun x => In x (names df)) pre ->
  ~ In c (names df) ->
  exists h',
    run_stage s r h = (Raise (KeyError c), h')
    /\ forall r0 d, h !! r0 = Some d -> h' !! r0 = Some d.
Proof.
  intros Hr Hsplit Hpre Hc.
  destruct s; unfold reads in Hsplit; enumerate_split Hsplit pre;
    rewrite ?Forall_cons in Hpre;
    repeat match goal with
      | H : _ /\ _ |- _ => destruct H
      | H : In _ (names _) |- _ => apply assoc_In in H as [? H]
      end;
    cbn [run_stage];
    unfold compute_survival, compute_revenue, compute_costs,
      compute_net_income_and_pv;
    run_to_missing Hr.
Qed.

Lemma stage_missing_column_witness :
  single_table_store !! 0%nat = Some (input_table single_period_cohort)
  /\ reads Revenue
     = [] ++ "active_accounts_bop"
          :: ["revolving_balance"; "finance_charge_rate"; "purchase_amount";
              "flat_interchange_rate"; "other_fees"]
  /\ ~ In "active_accounts_bop" (names (input_table single_period_cohort))
  /\ exists h',
       compute_revenue 0%nat single_table_store
       = (Raise (KeyError "active_accounts_bop"), h')
       /\ forall r0 d,
            single_table_store !! r0 = Some d -> h' !! r0 = Some d.
Proof.
  assert (H0 : single_table_store !! 0%nat
               = Some (input_table single_period_cohort))
    by apply lookup_singleton_eq.
  assert (Hc : ~ In "active_accounts_bop"
                 (names (input_table single_period_cohort)))
    by not_in_names.
  split; [exact H0|]. split; [reflexivity|]. split; [exact Hc|].
  exact (stage_missing_column Revenue _ _ _ [] _ _ H0 eq_refl
           (Forall_nil_2 _) Hc).
Defined.

(** ** Validation, completed *)

Lemma GlobalParameters_init_Ok fir dr n g :
  GlobalParameters_init fir dr n = Ok g -> g = mkGlobalParameters fir dr n.
Proof.
  unfold GlobalParameters_init. rewrite match_errors.
  destruct (bool_decide _); [intros [= <-]; reflexivity | discriminate].
Qed.

(** X13: [GlobalParameters] is constructed exactly when
    [0 <= flat_interchange_rate <= 1], [discount_rate >= 0] and
    [num_accounts > 0], and then holds the given values; a zero or negative
    [num_accounts] is rejected with a [greater_than] error at
    [num_accounts]. *)
Theorem global_parameters_validation fir dr n :
  ((exists g, GlobalParameters_init fir dr n = Ok g)
   <-> (0 <= fir <= 1 /\ 0 <= dr /\ (0 < n)%Z))
  /\ (forall g, GlobalParameters_init fir dr n = Ok g ->
                g = mkGlobalParameters fir dr n)
  /\ ((n <= 0)%Z ->
      exists e, GlobalParameters_init fir dr n = Raise e
                /\ In (FieldError "num_accounts" "greater_than") e).
Proof.
  split; [|split].
  - split.
    + intros [g Hg]. pose proof (GlobalParameters_init_Ok _ _ _ _ Hg) as ->.
      apply (validated_parameters_in_range (mkGlobalParameters fir dr n)).
      exact Hg.
    + intros Hin. exists (mkGlobalParameters fir dr n).
      apply (validated_parameters_intro (mkGlobalParameters fir dr n)).
      exact Hin.
  - apply GlobalParameters_init_Ok.
  - intros Hn. unfold GlobalParameters_init. rewrite match_errors.
    assert (Hgt : int_gt "num_accounts" n 0
                  = [FieldError "num_accounts" "greater_than"]).
    { unfold int_gt. rewrite Z.gtb_ltb.
      destruct (Z.ltb_spec 0 n); [lia | reflexivity]. }
    rewrite bool_decide_eq_false_2.
    + eexists. split; [reflexivity|]. rewrite Hgt, !in_app_iff.
      right. right. right. left. reflexivity.
    + intros E.
      apply app_nil_iff in E as [_ E]. apply app_nil_iff in E as [_ E].
      apply app_nil_iff in E as [_ E]. rewrite Hgt in E. discriminate.
Qed.

Lemma global_parameters_validation_witness :
  (0 <= 0)%Z
  /\ exists e, GlobalParameters_init 0.02 0.10 0 = Raise e
               /\ In (FieldError "num_accounts" "greater_than") e.
Proof.
  assert (H : (0 <= 0)%Z) by lia.
  split; [exact H|].
  exact (proj2 (proj2 (global_parameters_validation 0.02 0.10 0)) H).
Defined.

(** X15: a validated cohort has at most 60 periods, row [k] (from 0) carries
    the period index [k + 1], and no period index occurs twice. *)
Theorem validated_cohort_shape c :
  validated c ->
  (length (periods c) <= 60)%nat
  /\ (forall k p, periods c !! k = Some p -> period p = Z.of_nat (S k))
  /\ NoDup (map period (periods c)).
Proof.
  intros Hv. split; [|split].
  - destruct (decide (periods c = [])) as [E|Hne]; [rewrite E; simpl; lia|].
    destruct (last_period c Hne) as [p Hp].
    pose proof (validated_period_index c _ p Hv Hp) as Hidx.
    destruct (validated_row c _ p Hv Hp) as [([_ Hle] & _) _].
    apply nonempty_length in Hne. lia.
  - intros k p Hp. apply (validated_period_index c k p Hv Hp).
  - pose proof (validated_sequential c Hv) as Hseq.
    unfold actual_indices, expected_indices in Hseq. rewrite Hseq.
    apply (NoDup_fmap_2 Z.of_nat), NoDup_seq.
Qed.

Lemma validated_cohort_shape_witness :
  validated two_period_cohort
  /\ (length (periods two_period_cohort) <= 60)%nat.
Proof.
  split; [exact validated_two_period_cohort|].
  apply (validated_cohort_shape two_period_cohort validated_two_period_cohort).
Defined.

(** ** The base table and the cohort size *)

(** X16: [build_period_table] never raises: for any cohort it allocates a
    new frame with one row per period and leaves the rest of the store as it
    was.  The frame has the seven period columns followed by the three
    broadcast parameters, except for a cohort without periods, where it has
    the three parameter columns only; every column has one entry per
    period. *)
Theorem build_period_table_shape c h :
  exists r t,
    build_period_table c h = (Ok r, <[r := t]> h)
    /\ h !! r = None
    /\ index t = length (periods c)
    /\ names t
       = (if decide (periods c = []) then []
          else ["period"; "prob_charge_off"; "prob_attrition";
                "revolving_balance"; "purchase_amount";
                "finance_charge_rate"; "other_fees"])
         ++ ["flat_interchange_rate"; "discount_rate"; "num_accounts"]
    /\ Forall (fun col => length col.2 = length (periods c)) (columns t).
Proof.
  destruct (decide (periods c = [])) as [E|Hne].
  - rewrite (build_period_table_empty c h E), E.
    eexists _, _. split; [reflexivity|]. split; [apply fresh_None|].
    repeat split. repeat constructor.
  - rewrite (build_period_table_nonempty c h Hne).
    eexists _, _. split; [reflexivity|]. split; [apply fresh_None|].
    repeat split.
    unfold input_table, columns.
    repeat (apply Forall_cons; split); [..|apply Forall_nil_2];
      cbn [snd]; series_length.
Qed.

Lemma sum_proportional (a b : Series) u v :
  length a = length b ->
  (forall k x y, a !! k = Some x -> b !! k = Some y -> x * u = y * v) ->
  sum a * u = sum b * v.
Proof.
  revert b. induction a as [|x a IH]; intros [|y b] Hlen Hrows;
    simpl in Hlen; try discriminate.
  - rewrite sum_nil. lra.
  - rewrite !sum_cons.
    pose proof (Hrows 0%nat x y eq_refl eq_refl).
    pose proof (IH b ltac:(lia) (fun k => Hrows (S k))). lra.
Qed.

(** X17: in exact real arithmetic, the cohort size only scales the result.
    Two validated cohorts with the same periods, interchange rate and
    discount rate have the same
    [pv_per_account] and the same [final_survival_rate], and their
    [total_pv] are in the ratio of their [num_accounts]. *)
Theorem pv_per_account_scale_free ps g g' h h' :
  validated (mkCohortInput ps g) ->
  validated (mkCohortInput ps g') ->
  flat_interchange_rate g = flat_interchange_rate g' ->
  discount_rate g = discount_rate g' ->
  on_valuation (mkCohortInput ps g) h (fun _ s =>
    on_valuation (mkCohortInput ps g') h' (fun _ s' =>
      pv_per_account s = pv_per_account s'
      /\ final_survival_rate s = final_survival_rate s'
      /\ total_pv s * IZR (num_accounts g')
         = total_pv s' * IZR (num_accounts g))).
Proof.
  intros Hv Hv' Hfir Hdr.
  apply on_valuation_intro; [apply validated_num_accounts_nonzero, Hv|].
  intros Hne.
  apply on_valuation_intro; [apply validated_num_accounts_nonzero, Hv'|].
  intros _.
  pose proof (validated_num_accounts _ Hv) as HN.
  pose proof (validated_num_accounts _ Hv') as HN'.
  cbn [parameters] in HN, HN'.
  assert (Hpv : sum (pv_net_income_of (mkCohortInput ps g))
                * IZR (num_accounts g')
                = sum (pv_net_income_of (mkCohortInput ps g'))
                  * IZR (num_accounts g)).
  { apply sum_proportional.
    - rewrite !length_pv_net_income_of. reflexivity.
    - intros k x y Hx Hy.
      assert (Hlt : (k < length ps)%nat).
      { apply lookup_lt_Some in Hx.
        rewrite length_pv_net_income_of in Hx. exact Hx. }
      destruct (lookup_lt_is_Some_2 _ _ Hlt) as [p Hp].
      rewrite (row_pv_net_income (mkCohortInput ps g) k p Hp) in Hx.
      rewrite (row_pv_net_income (mkCohortInput ps g') k p Hp) in Hy.
      injection Hx as <-. injection Hy as <-.
      cbn [parameters]. rewrite Hfir, Hdr.
      change (survival_factor_of (mkCohortInput ps g))
        with (survival_factor_of (mkCohortInput ps g')).
      ring. }
  split; [|split].
  - cbn [summary_of pv_per_account parameters].
    apply (Rmult_eq_reg_r (IZR (num_accounts g) * IZR (num_accounts g')));
      [|nra].
    field_simplify; lra.
  - rewrite !final_survival_rate_of by exact Hne. reflexivity.
  - exact Hpv.
Qed.

Lemma pv_per_account_scale_free_witness :
  validated (mkCohortInput [make_period 1; make_period 2] default_params)
  /\ validated (mkCohortInput [make_period 1; make_period 2]
                  (mkGlobalParameters 0.02 0.10 500))
  /\ on_valuation two_period_cohort ∅ (fun _ s =>
       on_valuation (mkCohortInput [make_period 1; make_period 2]
                       (mkGlobalParameters 0.02 0.10 500)) ∅ (fun _ s' =>
         pv_per_account s = pv_per_account s'
         /\ final_survival_rate s = final_survival_rate s'
         /\ total_pv s * 500 = total_pv s' * 1000)).
Proof.
  assert (Hv' : validated (mkCohortInput [make_period 1; make_period 2]
                             (mkGlobalParameters 0.02 0.10 500)))
    by validate.
  split; [exact validated_two_period_cohort|]. split; [exact Hv'|].
  exact (pv_per_account_scale_free _ _ _ ∅ ∅ validated_two_period_cohort Hv'
           eq_refl eq_refl).
Defined.

(** * Properties of the loader *)

Import Io.

Lemma field_errors_nil {A} (read : A * ValidationError) constraints :
  field_errors read constraints = [] ->
  read.2 = [] /\ constraints read.1 = [].
Proof.
  unfold field_errors. destruct read as [a [|e es]]; simpl; [auto|].
  discriminate.
Qed.

(** Every [PeriodData] the loader constructs from a row is one the
    constructor accepts. *)
Lemma PeriodData_kwargs_validated row p :
  PeriodData_kwargs row = Ok p -> validated_period p.
Proof.
  unfold PeriodData_kwargs. rewrite match_errors.
  match goal with
  | |- context [bool_decide ?P] => destruct (bool_decide_reflect P) as [E|E]
  end; [|discriminate].
  apply app_nil_iff in E as [E1 E]. apply app_nil_iff in E as [E2 E].
  apply app_nil_iff in E as [E3 E]. apply app_nil_iff in E as [E4 E].
  apply app_nil_iff in E as [E5 E]. apply app_nil_iff in E as [E6 E7].
  apply field_errors_nil in E1 as [_ E1], E2 as [_ E2], E3 as [_ E3],
    E4 as [_ E4], E5 as [_ E5], E6 as [_ E6], E7 as [_ E7].
  apply app_nil_iff in E1 as [?%int_ge_nil ?%int_le_nil].
  apply app_nil_iff in E2 as [?%ge_nil ?%le_nil].
  apply app_nil_iff in E3 as [?%ge_nil ?%le_nil].
  apply ge_nil in E4, E5, E7.
  apply app_nil_iff in E6 as [?%ge_nil ?%le_nil].
  unfold _competing_risks_valid.
  destruct (Rgt_dec _ _) as [|Hs]; [discriminate|].
  intros [= <-]. apply validated_period_intro.
  - unfold fields_in_range. cbn [period prob_charge_off prob_attrition
      revolving_balance purchase_amount finance_charge_rate other_fees].
    repeat split; assumption.
  - cbn [prob_charge_off prob_attrition] in *. lra.
Qed.

Lemma construct_all_Forall2 rows ps :
  construct_all rows = Ok ps
  <-> Forall2 (fun row p => PeriodData_kwargs row = Ok p) rows ps.
Proof.
  revert ps. induction rows as [|row rows IH]; intros ps; simpl.
  - split; [intros [= <-]; constructor | intros H; inversion H; reflexivity].
  - destruct (PeriodData_kwargs row) as [p|e] eqn:Hrow.
    + destruct (construct_all rows) as [ps'|e] eqn:Hrows.
      * split.
        -- intros [= <-]. constructor; [exact Hrow | apply IH; reflexivity].
        -- intros H. inversion H as [|? p' ? ps'' Hp Hps]; subst.
           apply IH in Hps. congruence.
      * split; [discriminate|].
        intros H. inversion H as [|? p' ? ps'' Hp Hps]; subst.
        apply IH in Hps. discriminate.
    + split; [discriminate|].
      intros H. inversion H as [|? p' ? ps'' Hp Hps]; subst. congruence.
Qed.

Lemma length_to_dict_records df :
  length (to_dict_records df) = csv_index df.
Proof. unfold to_dict_records. rewrite length_map, length_seq. reflexivity. Qed.

Lemma missing_columns_empty df :
  EXPECTED_COLUMNS ∖ list_to_set (csv_names df) = (∅ : gset string)
  <-> forall c, c ∈ EXPECTED_COLUMNS -> In c (csv_names df).
Proof.
  split.
  - intros E c Hc. apply list_elem_of_In.
    destruct (decide (c ∈ csv_names df)) as [|Hn]; [assumption|].
    assert (c ∈ EXPECTED_COLUMNS ∖ list_to_set (csv_names df)) as Hin
      by (apply elem_of_difference; split;
          [exact Hc | rewrite elem_of_list_to_set; exact Hn]).
    rewrite E in Hin. set_solver.
  - intros Hall. apply set_eq. intros c. split; [|set_solver].
    intros [Hc Hn]%elem_of_difference. exfalso. apply Hn.
    rewrite elem_of_list_to_set. apply list_elem_of_In, Hall, Hc.
Qed.

Lemma load_periods_from_csv_inv files path ps :
  load_periods_from_csv files path = Ok ps ->
  exists df,
    files !! path = Some df
    /\ (forall c, c ∈ EXPECTED_COLUMNS -> In c (csv_names df))
    /\ Forall2 (fun row p => PeriodData_kwargs row = Ok p)
         (to_dict_records df) ps.
Proof.
  unfold load_periods_from_csv, read_csv.
  destruct (files !! path) as [df|]; [|discriminate].
  match goal with
  | |- context [bool_decide ?P] => destruct (bool_decide_reflect P) as [E|E]
  end; [discriminate|].
  destruct (construct_all (to_dict_records df)) as [ps'|e] eqn:Hall;
    [|discriminate].
  intros [= <-]. exists df. split; [reflexivity|]. split.
  - apply missing_columns_empty.
    destruct (decide (EXPECTED_COLUMNS ∖ list_to_set (csv_names df)
                      = (∅ : gset string))); [assumption | contradiction].
  - apply construct_all_Forall2, Hall.
Qed.

Lemma load_periods_from_csv_intro files path df ps :
  files !! path = Some df ->
  (forall c, c ∈ EXPECTED_COLUMNS -> In c (csv_names df)) ->
  Forall2 (fun row p => PeriodData_kwargs row = Ok p) (to_dict_records df) ps ->
  load_periods_from_csv files path = Ok ps.
Proof.
  intros Hf Hcols Hrows. unfold load_periods_from_csv, read_csv. rewrite Hf.
  rewrite bool_decide_eq_false_2
    by (intros Hne; apply Hne, missing_columns_empty, Hcols).
  apply construct_all_Forall2 in Hrows. rewrite Hrows. reflexivity.
Qed.

Lemma Forall2_validated rows ps :
  Forall2 (fun row p => PeriodData_kwargs row = Ok p) rows ps ->
  Forall validated_period ps.
Proof.
  induction 1 as [|row p rows ps Hp _ IH]; constructor; [|exact IH].
  eapply PeriodData_kwargs_validated, Hp.
Qed.

(** X18: when [load_periods_from_csv] returns, the file exists and has every
    expected column, and the list holds one [PeriodData] per row of the file,
    in row order, each constructed from its row and accepted by the
    validators; conversely it returns whenever the file has the expected
    columns and every row constructs. *)
Theorem load_periods_from_csv_result files path :
  (forall ps,
     load_periods_from_csv files path = Ok ps ->
     exists df,
       files !! path = Some df
       /\ (forall c, c ∈ EXPECTED_COLUMNS -> In c (csv_names df))
       /\ length ps = csv_index df
       /\ Forall validated_period ps
       /\ Forall2 (fun row p => PeriodData_kwargs row = Ok p)
            (to_dict_records df) ps)
  /\ (forall df ps,
        files !! path = Some df ->
        (forall c, c ∈ EXPECTED_COLUMNS -> In c (csv_names df)) ->
        Forall2 (fun row p => PeriodData_kwargs row = Ok p)
          (to_dict_records df) ps ->
        load_periods_from_csv files path = Ok ps).
Proof.
  split.
  - intros ps Hload.
    destruct (load_periods_from_csv_inv _ _ _ Hload) as (df & Hf & Hc & Hrows).
    exists df. split; [exact Hf|]. split; [exact Hc|]. split.
    + rewrite <- (Forall2_length _ _ _ Hrows). apply length_to_dict_records.
    + split; [eapply Forall2_validated, Hrows | exact Hrows].
  - intros df ps. apply load_periods_from_csv_intro.
Qed.

Lemma as_float_Some loc v : as_float loc (Some v) = (float_value v, []).
Proof. destruct v; reflexivity. Qed.

(** X19: constructing a period from a CSV row whose [period] cell is an
    integer is constructing it from the row's numbers: the result is that of
    [PeriodData] on the cell values, an integer cell in a float column counts
    as that number, and cells under other column names play no role.  A
    [period] cell holding a float with a fractional part is rejected with an
    [int_from_float] error at [period]. *)
Theorem loaded_row row vpco vpa vrb vpu vfcr vfees :
  assoc "prob_charge_off" row = Some vpco ->
  assoc "prob_attrition" row = Some vpa ->
  assoc "revolving_balance" row = Some vrb ->
  assoc "purchase_amount" row = Some vpu ->
  assoc "finance_charge_rate" row = Some vfcr ->
  assoc "other_fees" row = Some vfees ->
  (forall z,
     assoc "period" row = Some (IntCell z) ->
     PeriodData_kwargs row
     = PeriodData_init z (float_value vpco) (float_value vpa)
         (float_value vrb) (float_value vpu) (float_value vfcr)
         (float_value vfees))
  /\ (forall x,
        assoc "period" row = Some (FloatCell x) ->
        x <> IZR (Int_part x) ->
        exists e, PeriodData_kwargs row = Raise e
                  /\ In (FieldError "period" "int_from_float") e).
Proof.
  intros Hpco Hpa Hrb Hpu Hfcr Hfees. split.
  - intros z Hz. unfold PeriodData_kwargs, PeriodData_init.
    rewrite Hz, Hpco, Hpa, Hrb, Hpu, Hfcr, Hfees, !as_float_Some.
    cbn [as_int field_errors fst snd]. rewrite <- !app_assoc. reflexivity.
  - intros x Hx Hfrac. unfold PeriodData_kwargs.
    rewrite Hx. cbn [as_int]. destruct (Req_dec_T x (IZR (Int_part x)));
      [contradiction|].
    cbn [field_errors fst snd app]. eexists. split; [reflexivity|].
    left. reflexivity.
Qed.

Lemma make_period_row (t : Z) :
  (1 <= t <= 60)%Z ->
  PeriodData_kwargs
    [("period", IntCell t); ("prob_charge_off", FloatCell 0.02);
     ("prob_attrition", FloatCell 0.03); ("revolving_balance", FloatCell 5000);
     ("purchase_amount", FloatCell 1000);
     ("finance_charge_rate", FloatCell 0.015); ("other_fees", FloatCell 25)]
  = Ok (make_period t).
Proof.
  intros Ht.
  match goal with
  | |- PeriodData_kwargs ?row = _ =>
      assert (H : PeriodData_kwargs row
                  = PeriodData_init t 0.02 0.03 5000 1000 0.015 25)
  end.
  { unfold PeriodData_kwargs, PeriodData_init.
    cbn [assoc as_int as_float field_errors fst snd]. eval_names.
    cbn [as_int as_float field_errors fst snd].
    rewrite <- !app_assoc. reflexivity. }
  rewrite H. apply (validated_period_intro (make_period t)).
  - unfold fields_in_range. cbn. repeat split; (lia || lra).
  - cbn. lra.
Qed.

Lemma loaded_row_witness :
  PeriodData_kwargs
    [("period", IntCell 1); ("prob_charge_off", FloatCell 0.02);
     ("prob_attrition", FloatCell 0.03); ("revolving_balance", IntCell 5000);
     ("purchase_amount", FloatCell 1000);
     ("finance_charge_rate", FloatCell 0.015); ("other_fees", FloatCell 25);
     ("comment", IntCell 7)]
  = PeriodData_init 1 0.02 0.03 5000 1000 0.015 25.
Proof.
  exact (proj1 (loaded_row
                  [("period", IntCell 1); ("prob_charge_off", FloatCell 0.02);
                   ("prob_attrition", FloatCell 0.03);
                   ("revolving_balance", IntCell 5000);
                   ("purchase_amount", FloatCell 1000);
                   ("finance_charge_rate", FloatCell 0.015);
                   ("other_fees", FloatCell 25); ("comment", IntCell 7)]
                  (FloatCell 0.02) (FloatCell 0.03) (IntCell 5000)
                  (FloatCell 1000) (FloatCell 0.015) (FloatCell 25)
                  eq_refl eq_refl eq_refl eq_refl eq_refl eq_refl)
               1%Z eq_refl).
Defined.

Lemma test_csv_lookup : test_files !! "test.csv" = Some three_period_csv.
Proof. reflexivity. Qed.

Lemma three_period_csv_columns c :
  c ∈ EXPECTED_COLUMNS -> In c (csv_names three_period_csv).
Proof.
  unfold EXPECTED_COLUMNS. rewrite !elem_of_union, !elem_of_singleton.
  cbn. intuition auto.
Qed.

Lemma three_period_csv_rows :
  Forall2 (fun row p => PeriodData_kwargs row = Ok p)
    (to_dict_records three_period_csv)
    [make_period 1; make_period 2; make_period 3].
Proof.
  cbn [to_dict_records three_period_csv csv_index csv_data seq map omap
         list_omap lookup list_lookup fst snd].
  repeat constructor; apply make_period_row; lia.
Qed.

Lemma load_periods_from_csv_result_witness :
  test_files !! "test.csv" = Some three_period_csv
  /\ (forall c, c ∈ EXPECTED_COLUMNS -> In c (csv_names three_period_csv))
  /\ Forall2 (fun row p => PeriodData_kwargs row = Ok p)
       (to_dict_records three_period_csv)
       [make_period 1; make_period 2; make_period 3]
  /\ load_periods_from_csv test_files "test.csv"
     = Ok [make_period 1; make_period 2; make_period 3].
Proof.
  split; [exact test_csv_lookup|]. split; [exact three_period_csv_columns|].
  split; [exact three_period_csv_rows|].
  exact (proj2 (load_periods_from_csv_result test_files "test.csv")
           three_period_csv _ test_csv_lookup three_period_csv_columns
           three_period_csv_rows).
Defined.

(** X20: when the file lacks an expected column, [load_periods_from_csv]
    raises the missing-columns error carrying exactly the expected columns
    the file does not have, whatever the rows hold; [load_cohort_input]
    raises the same error whatever parameters it is given, valid or not. *)
Theorem missing_columns_reported files path df c fir dr n :
  files !! path = Some df ->
  c ∈ EXPECTED_COLUMNS ->
  ~ In c (csv_names df) ->
  exists missing,
    load_periods_from_csv files path = Raise (MissingColumns missing)
    /\ load_cohort_input files path fir dr n = Raise (MissingColumns missing)
    /\ forall x,
         x ∈ missing <-> x ∈ EXPECTED_COLUMNS /\ ~ In x (csv_names df).
Proof.
  intros Hf Hc Hn.
  assert (Hload : load_periods_from_csv files path
                  = Raise (MissingColumns
                             (EXPECTED_COLUMNS ∖ list_to_set (csv_names df)))).
  { unfold load_periods_from_csv, read_csv. rewrite Hf.
    rewrite bool_decide_eq_true_2; [reflexivity|].
    intros E. apply Hn. apply (proj1 (missing_columns_empty df) E c Hc). }
  eexists. split; [exact Hload|]. split.
  - unfold load_cohort_input. rewrite Hload. reflexivity.
  - intros x. rewrite elem_of_difference, elem_of_list_to_set,
      list_elem_of_In. reflexivity.
Qed.

Lemma missing_columns_reported_witness :
  test_files !! "bad.csv" = Some two_column_csv
  /\ "prob_attrition" ∈ EXPECTED_COLUMNS
  /\ ~ In "prob_attrition" (csv_names two_column_csv)
  /\ exists missing,
       load_periods_from_csv test_files "bad.csv"
       = Raise (MissingColumns missing)
       /\ load_cohort_input test_files "bad.csv" 0.02 0.10 0
          = Raise (MissingColumns missing)
       /\ forall x,
            x ∈ missing
            <-> x ∈ EXPECTED_COLUMNS /\ ~ In x (csv_names two_column_csv).
Proof.
  assert (Hf : test_files !! "bad.csv" = Some two_column_csv)
    by reflexivity.
  assert (Hc : "prob_attrition" ∈ EXPECTED_COLUMNS).
  { unfold EXPECTED_COLUMNS. rewrite !elem_of_union, !elem_of_singleton.
    intuition auto. }
  assert (Hn : ~ In "prob_attrition" (csv_names two_column_csv))
    by not_in_names.
  split; [exact Hf|]. split; [exact Hc|]. split; [exact Hn|].
  exact (missing_columns_reported _ _ _ _ 0.02 0.10 0%Z Hf Hc Hn).
Defined.

Lemma CohortInput_init_Ok ps g c :
  CohortInput_init ps g = Ok c -> c = mkCohortInput ps g.
Proof.
  unfold CohortInput_init, _periods_sequential.
  destruct (bool_decide _); [discriminate | congruence].
Qed.

Lemma load_cohort_input_inv files path fir dr n c :
  load_cohort_input files path fir dr n = Ok c ->
  load_periods_from_csv files path = Ok (periods c)
  /\ parameters c = mkGlobalParameters fir dr n
  /\ validated c.
Proof.
  unfold load_cohort_input.
  destruct (load_periods_from_csv files path) as [ps|e] eqn:Hload;
    [|discriminate].
  destruct (GlobalParameters_init fir dr n) as [g|e] eqn:Hg; [|discriminate].
  destruct (CohortInput_init ps g) as [c'|e] eqn:Hc; [|discriminate].
  intros [= <-].
  pose proof (CohortInput_init_Ok _ _ _ Hc) as ->.
  pose proof (GlobalParameters_init_Ok _ _ _ _ Hg) as ->.
  cbn [periods parameters].
  split; [reflexivity|]. split; [reflexivity|].
  split; [|split]; cbn [periods parameters].
  - destruct (load_periods_from_csv_inv _ _ _ Hload) as (df & _ & _ & Hrows).
    eapply Forall2_validated, Hrows.
  - exact Hg.
  - exact Hc.
Qed.

(** X21: whatever [load_cohort_input] returns, for a [num_accounts] in the
    [int64] range (below [2 ^ 63]: one that pandas stores as an integer
    column and converts to a float without overflow), is a validated cohort:
    its periods are the ones [load_periods_from_csv] loads from the file, its
    parameters are the ones given, and [run_valuation] on it returns a table
    with one row per period and the summary of that many periods; the only
    way the valuation can fail is the [KeyError] on a cohort without
    periods. *)
Theorem load_cohort_input_validated files path fir dr n c :
  (n < 2 ^ 63)%Z ->
  load_cohort_input files path fir dr n = Ok c ->
  validated c
  /\ load_periods_from_csv files path = Ok (periods c)
  /\ parameters c = mkGlobalParameters fir dr n
  /\ forall h,
       on_valuation c h (fun t s =>
         index t = length (periods c)
         /\ num_periods s = length (periods c)
         /\ summary_num_accounts s = n).
Proof.
  intros _ Hload.
  destruct (load_cohort_input_inv _ _ _ _ _ _ Hload) as (Hps & Hg & Hv).
  split; [exact Hv|]. split; [exact Hps|]. split; [exact Hg|].
  intros h.
  apply on_valuation_intro; [apply validated_num_accounts_nonzero, Hv|].
  intros _. cbn [summary_of num_periods summary_num_accounts].
  rewrite Hg. repeat split.
Qed.

Lemma load_test_cohort :
  load_cohort_input test_files "test.csv" 0.02 0.10 500
  = Ok (mkCohortInput [make_period 1; make_period 2; make_period 3]
          (mkGlobalParameters 0.02 0.10 500)).
Proof.
  unfold load_cohort_input.
  rewrite (load_periods_from_csv_intro _ _ _ _ test_csv_lookup
             three_period_csv_columns three_period_csv_rows).
  rewrite (validated_parameters_intro (mkGlobalParameters 0.02 0.10 500))
    by (unfold parameters_in_range; cbn; repeat split; (lia || lra)).
  reflexivity.
Qed.

Lemma load_cohort_input_validated_witness :
  (500 < 2 ^ 63)%Z
  /\ load_cohort_input test_files "test.csv" 0.02 0.10 500
  = Ok (mkCohortInput [make_period 1; make_period 2; make_period 3]
          (mkGlobalParameters 0.02 0.10 500))
  /\ validated (mkCohortInput [make_period 1; make_period 2; make_period 3]
                  (mkGlobalParameters 0.02 0.10 500)).
Proof.
  assert (Hn : (500 < 2 ^ 63)%Z) by reflexivity.
  split; [exact Hn|]. split; [exact load_test_cohort|].
  exact (proj1 (load_cohort_input_validated _ _ _ _ _ _ Hn load_test_cohort)).
Defined.

(** X22: a CSV file that has the expected header and no rows loads, with any
    valid parameters, into a validated cohort without periods, and
    [run_valuation] on that cohort raises [KeyError: 'prob_charge_off']: the
    loader can hand the engine an input on which it fails. *)
Theorem header_only_csv_raises files path df fir dr n h :
  files !! path = Some df ->
  csv_index df = 0%nat ->
  (forall c, c ∈ EXPECTED_COLUMNS -> In c (csv_names df)) ->
  parameters_in_range (mkGlobalParameters fir dr n) ->
  exists c h',
    load_cohort_input files path fir dr n = Ok c
    /\ validated c
    /\ periods c = []
    /\ run_valuation c h = (Raise (KeyError "prob_charge_off"), h').
Proof.
  intros Hf Hrows Hcols Hg.
  assert (Hload : load_periods_from_csv files path = Ok []).
  { apply (load_periods_from_csv_intro _ _ df); [exact Hf | exact Hcols|].
    unfold to_dict_records. rewrite Hrows. constructor. }
  assert (Hc : load_cohort_input files path fir dr n
               = Ok (mkCohortInput [] (mkGlobalParameters fir dr n))).
  { unfold load_cohort_input. rewrite Hload.
    rewrite (validated_parameters_intro (mkGlobalParameters fir dr n) Hg).
    reflexivity. }
  destruct (run_valuation_empty
              (mkCohortInput [] (mkGlobalParameters fir dr n)) h eq_refl)
    as [h' Hrun].
  exists (mkCohortInput [] (mkGlobalParameters fir dr n)), h'.
  split; [exact Hc|].
  split; [apply (load_cohort_input_inv _ _ _ _ _ _ Hc)|].
  split; [reflexivity | exact Hrun].
Qed.

Lemma header_only_csv_columns c :
  c ∈ EXPECTED_COLUMNS -> In c (csv_names header_only_csv).
Proof.
  unfold EXPECTED_COLUMNS. rewrite !elem_of_union, !elem_of_singleton.
  cbn. intuition auto.
Qed.

Lemma header_only_csv_raises_witness :
  test_files !! "empty.csv" = Some header_only_csv
  /\ csv_index header_only_csv = 0%nat
  /\ (forall c, c ∈ EXPECTED_COLUMNS -> In c (csv_names header_only_csv))
  /\ parameters_in_range (mkGlobalParameters 0.02 0.10 1000)
  /\ exists c h',
       load_cohort_input test_files "empty.csv" 0.02 0.10 1000 = Ok c
       /\ validated c
       /\ periods c = []
       /\ run_valuation c ∅ = (Raise (KeyError "prob_charge_off"), h').
Proof.
  assert (Hf : test_files !! "empty.csv" = Some header_only_csv)
    by reflexivity.
  assert (Hg : parameters_in_range (mkGlobalParameters 0.02 0.10 1000))
    by (unfold parameters_in_range; cbn; repeat split; (lia || lra)).
  split; [exact Hf|]. split; [reflexivity|].
  split; [exact header_only_csv_columns|]. split; [exact Hg|].
  exact (header_only_csv_raises _ _ _ _ _ _ ∅ Hf eq_refl
           header_only_csv_columns Hg).
Defined.

(** * Two more properties of the engine *)

(** X23: in exact real arithmetic, for every validated cohort the summary's
    [final_survival_rate] is zero exactly when some period has
    [prob_charge_off + prob_attrition = 1]. *)
Theorem final_survival_rate_zero_iff c h :
  validated c ->
  on_valuation c h (fun _ s =>
    final_survival_rate s = 0
    <-> exists j p,
          periods c !! j = Some p
          /\ prob_charge_off p + prob_attrition p = 1).
Proof.
  intros Hv.
  apply on_valuation_intro; [apply validated_num_accounts_nonzero, Hv|].
  intros Hne. rewrite (final_survival_rate_of c Hne). split.
  - intros H0. apply prod_zero in H0 as [j Hj].
    assert (Hlt : (j < length (periods c))%nat).
    { rewrite <- length_survival_factor_of. eapply lookup_lt_Some, Hj. }
    destruct (lookup_lt_is_Some_2 _ _ Hlt) as [p Hp].
    rewrite (row_survival_factor c j p Hp) in Hj. injection Hj as Hj.
    exists j, p. split; [exact Hp | lra].
  - intros (j & p & Hp & Hone). apply (prod_has_zero _ j).
    rewrite (row_survival_factor c j p Hp). f_equal. lra.
Qed.

Lemma final_survival_rate_zero_iff_witness :
  validated full_charge_off_cohort
  /\ on_valuation full_charge_off_cohort ∅ (fun _ s =>
       final_survival_rate s = 0).
Proof.
  split; [exact validated_full_charge_off_cohort|].
  pose proof (final_survival_rate_zero_iff full_charge_off_cohort ∅
                validated_full_charge_off_cohort) as H.
  unfold on_valuation in *.
  destruct (run_valuation full_charge_off_cohort ∅) as [[[r s]|e] h'];
    [|exact H].
  destruct H as (t & Ht & H). exists t. split; [exact Ht|].
  apply H. exists 0%nat, (mkPeriodData 1 1 0 5000 1000 0.015 25).
  split; [reflexivity | cbn; lra].
Defined.

(** Compares two frames column by column, whatever the order in which
    their columns were assigned. *)
Ltac same_columns c :=
  rewrite ?assoc_set_column;
  repeat match goal with
    | |- context [String.eqb c ?k] =>
        destruct (String.eqb_spec c k) as [->|?]
    end;
  eval_names; reflexivity.

(** X24: [compute_revenue] and [compute_costs] do not depend on each other:
    on any frame that has the columns both read, running them in either
    order returns frames with the same rows and, under every column name,
    the same values (only the order of the new columns differs). *)
Theorem revenue_and_costs_commute (h : gmap ref DataFrame) (r : ref)
    (df : DataFrame) :
  h !! r = Some df ->
  Forall (fun c => In c (names df)) (reads Revenue) ->
  Forall (fun c => In c (names df)) (reads Costs) ->
  exists r1 h1 r2 h2 t r1' h1' r2' h2' t',
    compute_revenue r h = (Ok r1, h1)
    /\ compute_costs r1 h1 = (Ok r2, h2)
    /\ h2 !! r2 = Some t
    /\ compute_costs r h = (Ok r1', h1')
    /\ compute_revenue r1' h1' = (Ok r2', h2')
    /\ h2' !! r2' = Some t'
    /\ index t = index t'
    /\ forall c, assoc c (columns t) = assoc c (columns t').
Proof.
  intros Hr Hrev Hcost. split_reads Hrev. split_reads Hcost.
  eexists _, _, _, _, _, _, _, _, _, _.
  split; [erewrite compute_revenue_run by eassumption; reflexivity|].
  split; [erewrite compute_costs_run
            by first [apply lookup_insert_eq | find_column];
          reflexivity|].
  split; [apply lookup_insert_eq|].
  split; [erewrite compute_costs_run by eassumption; reflexivity|].
  split; [erewrite compute_revenue_run
            by first [apply lookup_insert_eq | find_column];
          reflexivity|].
  split; [apply lookup_insert_eq|].
  split; [reflexivity|].
  intros c. same_columns c.
Qed.

Lemma revenue_and_costs_commute_witness :
  survival_store !! 0%nat = Some (table_before Revenue single_period_cohort)
  /\ Forall (fun c => In c (names (table_before Revenue single_period_cohort)))
       (reads Revenue)
  /\ Forall (fun c => In c (names (table_before Revenue single_period_cohort)))
       (reads Costs)
  /\ exists r1 h1 r2 h2 t r1' h1' r2' h2' t',
       compute_revenue 0%nat survival_store = (Ok r1, h1)
       /\ compute_costs r1 h1 = (Ok r2, h2)
       /\ h2 !! r2 = Some t
       /\ compute_costs 0%nat survival_store = (Ok r1', h1')
       /\ compute_revenue r1' h1' = (Ok r2', h2')
       /\ h2' !! r2' = Some t'
       /\ index t = index t'
       /\ forall c, assoc c (columns t) = assoc c (columns t').
Proof.
  assert (H0 : survival_store !! 0%nat
               = Some (table_before Revenue single_period_cohort))
    by apply lookup_singleton_eq.
  assert (Hrev : Forall (fun c => In c (names (table_before Revenue
                                                 single_period_cohort)))
                   (reads Revenue))
    by (unfold reads; all_names in_names).
  assert (Hcost : Forall (fun c => In c (names (table_before Revenue
                                                  single_period_cohort)))
                    (reads Costs))
    by (unfold reads; all_names in_names).
  split; [exact H0|]. split; [exact Hrev|]. split; [exact Hcost|].
  exact (revenue_and_costs_commute _ _ _ H0 Hrev Hcost).
Defined.

(** * The code on binary64 *)

Import Floats.
Local Open Scope float_scope.

(** ** Comparisons *)

Lemma SFcompare_antisym x y :
  SFcompare y x = option_map CompOpp (SFcompare x y).
Proof.
  destruct x as [sx|sx| |sx mx ex], y as [sy|sy| |sy my ey]; simpl;
    try reflexivity;
    try (destruct sx; reflexivity); try (destruct sy; reflexivity);
    try (destruct sx, sy; reflexivity).
  f_equal. rewrite (Z.compare_antisym ey ex).
  assert (H : PosDef.Pos.compare_cont Eq my mx
              = CompOpp (PosDef.Pos.compare_cont Eq mx my))
    by (symmetry; apply (Pos.compare_cont_antisym mx my Eq)).
  rewrite H.
  destruct sx, sy, (ey ?= ex)%Z, (PosDef.Pos.compare_cont Eq mx my);
    reflexivity.
Qed.

Lemma leb_not_ltb x y : (x <=? y) = true -> (y <? x) = false.
Proof.
  rewrite leb_spec, ltb_spec. unfold SFleb, SFltb.
  rewrite (SFcompare_antisym (Prim2SF x) (Prim2SF y)).
  destruct (SFcompare (Prim2SF x) (Prim2SF y)) as [[]|]; simpl; congruence.
Qed.

Lemma SFcompare_None x y :
  SFcompare x y = None -> x = S754_nan \/ y = S754_nan.
Proof. destruct x, y; simpl; try discriminate; auto. Qed.

Lemma not_ltb_leb x y :
  Prim2SF x <> S754_nan -> Prim2SF y <> S754_nan ->
  (y <? x) = false -> (x <=? y) = true.
Proof.
  rewrite leb_spec, ltb_spec. unfold SFleb, SFltb.
  rewrite (SFcompare_antisym (Prim2SF x) (Prim2SF y)). intros Hx Hy.
  destruct (SFcompare (Prim2SF x) (Prim2SF y)) as [[]|] eqn:E; simpl;
    try congruence.
  apply SFcompare_None in E as [E|E]; contradiction.
Qed.

(** ** Addition of values between 0 and 1 is not NaN *)

Definition zero_or_finite (f : spec_float) : Prop :=
  match f with
  | S754_zero _ | S754_finite _ _ _ => True
  | _ => False
  end.

Definition SF_one : spec_float := S754_finite false 4503599627370496 (-52).

Lemma Prim2SF_0 : Prim2SF 0 = S754_zero false.
Proof. vm_compute. reflexivity. Qed.

Lemma Prim2SF_1 : Prim2SF 1 = SF_one.
Proof. vm_compute. reflexivity. Qed.

Lemma SFleb_unit_range f :
  SFleb (S754_zero false) f = true -> SFleb f SF_one = true ->
  zero_or_finite f.
Proof.
  unfold SFleb, SF_one.
  destruct f as [s|s| |s m e]; cbn [SFcompare zero_or_finite];
    try exact (fun _ _ => I); try discriminate.
  destruct s; discriminate.
Qed.

Lemma unit_range_finite x :
  (0 <=? x) = true -> (x <=? 1) = true -> zero_or_finite (Prim2SF x).
Proof.
  rewrite !leb_spec, Prim2SF_0, Prim2SF_1. apply SFleb_unit_range.
Qed.

Lemma shr_1_nonneg mrs : (0 <= shr_m mrs)%Z -> (0 <= shr_m (shr_1 mrs))%Z.
Proof.
  destruct mrs as [m r s]. destruct m as [|p|p]; simpl; [lia| |lia].
  destruct p; simpl; lia.
Qed.

Lemma iter_shr_1_nonneg p mrs :
  (0 <= shr_m mrs)%Z -> (0 <= shr_m (SpecFloat.iter_pos shr_1 p mrs))%Z.
Proof.
  revert mrs. induction p as [p IH|p IH|]; intros mrs H; simpl.
  - apply IH, IH, shr_1_nonneg, H.
  - apply IH, IH, H.
  - apply shr_1_nonneg, H.
Qed.

Lemma shr_fexp_nonneg m e l :
  (0 <= m)%Z -> (0 <= shr_m (fst (shr_fexp prec emax m e l)))%Z.
Proof.
  intros H. unfold shr_fexp, shr.
  assert (H0 : (0 <= shr_m (shr_record_of_loc m l))%Z)
    by (destruct l as [|[]]; exact H).
  destruct (_ - e)%Z; simpl; [exact H0 | | exact H0].
  apply iter_shr_1_nonneg, H0.
Qed.

Lemma round_nearest_even_nonneg m l :
  (0 <= m)%Z -> (0 <= round_nearest_even m l)%Z.
Proof.
  intros H. unfold round_nearest_even.
  destruct l as [|[]]; try destruct (IntDef.Z.even m); lia.
Qed.

Lemma binary_round_aux_not_nan sx m e l :
  (0 <= m)%Z -> binary_round_aux prec emax sx m e l <> S754_nan.
Proof.
  intros H. unfold binary_round_aux.
  pose proof (shr_fexp_nonneg m e l H) as H1.
  destruct (shr_fexp prec emax m e l) as [mrs' e']. simpl in H1.
  pose proof (shr_fexp_nonneg _ e' loc_Exact
                (round_nearest_even_nonneg _ (loc_of_shr_record mrs') H1))
    as H2.
  destruct (shr_fexp prec emax _ e' loc_Exact) as [mrs'' e'']. simpl in H2.
  destruct (shr_m mrs'') as [|p|p]; [discriminate| |lia].
  destruct (e'' <=? emax - prec)%Z; discriminate.
Qed.

Lemma binary_normalize_not_nan m e szero :
  binary_normalize prec emax m e szero <> S754_nan.
Proof.
  unfold binary_normalize, binary_round.
  destruct m as [|p|p]; [discriminate| |];
    destruct (shl_align _ _ _) as [mz ez];
    apply binary_round_aux_not_nan; lia.
Qed.

Lemma SF64add_not_nan x y :
  zero_or_finite x -> zero_or_finite y -> SF64add x y <> S754_nan.
Proof.
  unfold SF64add, SFadd.
  destruct x as [sx|sx| |sx mx ex], y as [sy|sy| |sy my ey]; simpl;
    try contradiction; intros _ _; try discriminate.
  - destruct sx, sy; discriminate.
  - apply binary_normalize_not_nan.
Qed.

Lemma add_not_nan x y :
  (0 <=? x) = true -> (x <=? 1) = true ->
  (0 <=? y) = true -> (y <=? 1) = true ->
  Prim2SF (x + y) <> S754_nan.
Proof.
  intros. rewrite add_spec. apply SF64add_not_nan; apply unit_range_finite;
    assumption.
Qed.

(** The test of [_competing_risks_valid] on two probabilities in range:
    [a + b > 1.0] is false exactly when [a + b <= 1.0]. *)
Lemma sum_not_above_1 x y :
  (0 <=? x) = true -> (x <=? 1) = true ->
  (0 <=? y) = true -> (y <=? 1) = true ->
  (1 <? x + y) = false <-> (x + y <=? 1) = true.
Proof.
  intros Hx0 Hx1 Hy0 Hy1. split; [|apply leb_not_ltb].
  apply not_ltb_leb; [apply add_not_nan; assumption|].
  rewrite Prim2SF_1. discriminate.
Qed.

(** ** Validation on construction *)

Import Binary64.

Lemma binary64_init_in_range period pco pa rb pu fcr fees :
  fields_in_range period pco pa rb pu fcr fees = true ->
  PeriodData_init period pco pa rb pu fcr fees
  = _competing_risks_valid (mkPeriodData period pco pa rb pu fcr fees).
Proof.
  unfold fields_in_range. rewrite !andb_true_iff.
  intros [[[[[[[[[[H1 H2] H3] H4] H5] H6] H7] H8] H9] H10] H11].
  unfold PeriodData_init, ge, le, int_ge, int_le.
  rewrite Z.geb_leb, H1, H2, H3, H4, H5, H6, H7, H8, H9, H10, H11.
  reflexivity.
Qed.

Lemma field_check_nil (c : bool) (e : error_detail) :
  (if c then [] else [e]) = [] -> c = true.
Proof. destruct c; [reflexivity | discriminate]. Qed.

Lemma field_check_no_ValueError (c : bool) loc constraint msg :
  ~ In (ValueError msg) (if c then [] else [FieldError loc constraint]).
Proof. destruct c; simpl; intuition discriminate. Qed.

Lemma binary64_init_out_of_range period pco pa rb pu fcr fees :
  fields_in_range period pco pa rb pu fcr fees = false ->
  exists e, PeriodData_init period pco pa rb pu fcr fees = Raise e
            /\ forall msg, ~ In (ValueError msg) e.
Proof.
  intros Hout. unfold PeriodData_init.
  match goal with
  | |- context [match ?l with [] => _ | _ => _ end] =>
      destruct l as [|e0 l0] eqn:E
  end.
  - exfalso.
    apply app_nil_iff in E as [E1%field_check_nil E].
    apply app_nil_iff in E as [E2%field_check_nil E].
    apply app_nil_iff in E as [E3%field_check_nil E].
    apply app_nil_iff in E as [E4%field_check_nil E].
    apply app_nil_iff in E as [E5%field_check_nil E].
    apply app_nil_iff in E as [E6%field_check_nil E].
    apply app_nil_iff in E as [E7%field_check_nil E].
    apply app_nil_iff in E as [E8%field_check_nil E].
    apply app_nil_iff in E as [E9%field_check_nil E].
    apply app_nil_iff in E as [E10%field_check_nil E11%field_check_nil].
    unfold fields_in_range in Hout. rewrite Z.geb_leb in E1.
    rewrite E1, E2, E3, E4, E5, E6, E7, E8, E9, E10, E11 in Hout.
    discriminate.
  - eexists. split; [reflexivity|]. rewrite <- E. intros msg Hin.
    unfold ge, le, int_ge, int_le in Hin.
    repeat (apply in_app_or in Hin as [Hin|Hin];
            [exact (field_check_no_ValueError _ _ _ _ Hin)|]).
    exact (field_check_no_ValueError _ _ _ _ Hin).
Qed.

Lemma binary64_init_Ok period pco pa rb pu fcr fees p :
  PeriodData_init period pco pa rb pu fcr fees = Ok p ->
  fields_in_range period pco pa rb pu fcr fees = true
  /\ (1 <? pco + pa) = false
  /\ p = mkPeriodData period pco pa rb pu fcr fees.
Proof.
  intros Hp.
  destruct (fields_in_range period pco pa rb pu fcr fees) eqn:Hin.
  - rewrite binary64_init_in_range in Hp by exact Hin.
    unfold _competing_risks_valid in Hp. cbn [prob_charge_off prob_attrition] in Hp.
    destruct (1 <? pco + pa); [discriminate|].
    split; [reflexivity|]. split; [reflexivity | congruence].
  - apply binary64_init_out_of_range in Hin as (e & He & _). congruence.
Qed.

Lemma probabilities_in_range period pco pa rb pu fcr fees :
  fields_in_range period pco pa rb pu fcr fees = true ->
  ((0 <=? pco) = true /\ (pco <=? 1) = true)
  /\ (0 <=? pa) = true /\ (pa <=? 1) = true.
Proof.
  unfold fields_in_range. rewrite !andb_true_iff. tauto.
Qed.

(** ** Claims about validation, on binary64 *)

(** C7 (amended): in binary64, as the code computes, with every field in
    range constructing a [PeriodData] succeeds exactly when the float sum
    [prob_charge_off + prob_attrition] is [<= 1.0] (a sum of exactly [1.0] is
    accepted) and then returns the record of the given fields; when it fails,
    the error is the validator's [ValueError], whose message names both
    probability values and does not name their sum. *)
Theorem competing_risk_validation period pco pa rb pu fcr fees :
  fields_in_range period pco pa rb pu fcr fees = true ->
  ((exists p, PeriodData_init period pco pa rb pu fcr fees = Ok p)
   <-> (pco + pa <=? 1) = true)
  /\ ((pco + pa <=? 1) = true ->
      PeriodData_init period pco pa rb pu fcr fees
      = Ok (mkPeriodData period pco pa rb pu fcr fees))
  /\ (forall e,
        PeriodData_init period pco pa rb pu fcr fees = Raise e ->
        exists msg,
          e = [ValueError msg]
          /\ names_value msg pco /\ names_value msg pa
          /\ ~ names_value msg (pco + pa)).
Proof.
  intros Hin. rewrite (binary64_init_in_range _ _ _ _ _ _ _ Hin).
  destruct (probabilities_in_range _ _ _ _ _ _ _ Hin)
    as [[Hpco0 Hpco1] [Hpa0 Hpa1]].
  pose proof (sum_not_above_1 pco pa Hpco0 Hpco1 Hpa0 Hpa1) as Hsum.
  unfold _competing_risks_valid. cbn [prob_charge_off prob_attrition].
  destruct (1 <? pco + pa) eqn:Hgt.
  - assert (Hle : (pco + pa <=? 1) = false).
    { destruct (pco + pa <=? 1) eqn:Hle; [|reflexivity].
      apply leb_not_ltb in Hle. congruence. }
    rewrite Hle.
    split; [split; [intros [p Hp]; discriminate | discriminate]|].
    split; [discriminate|].
    intros e He. injection He as <-. eexists. split; [reflexivity|].
    unfold names_value. cbn [In].
    split; [auto|]. split; [auto 6|].
    intros [H|[H|[H|[H|[H|[]]]]]]; try discriminate; injection H as H.
    + rewrite <- H in Hgt. apply leb_not_ltb in Hpco1. congruence.
    + rewrite <- H in Hgt. apply leb_not_ltb in Hpa1. congruence.
  - rewrite (proj1 Hsum eq_refl).
    split; [split; eauto|]. split; [reflexivity|]. discriminate.
Qed.

Lemma competing_risk_validation_witness :
  fields_in_range 1 0.5 0.5 5000 1000 0.015 25 = true
  /\ exists p, PeriodData_init 1 0.5 0.5 5000 1000 0.015 25 = Ok p.
Proof.
  assert (H : fields_in_range 1 0.5 0.5 5000 1000 0.015 25 = true)
    by (vm_compute; reflexivity).
  split; [exact H|].
  apply (competing_risk_validation _ _ _ _ _ _ _ H). vm_compute. reflexivity.
Defined.

(** The sum the validator tests is the rounded one: [1.0 + 1e-17] is [1.0]
    in binary64, so this pair is accepted although the exact sum exceeds
    one. *)
Example rounded_sum_is_accepted :
  PeriodData_init 1 1 1e-17 5000 1000 0.015 25
  = Ok (mkPeriodData 1 1 1e-17 5000 1000 0.015 25).
Proof. vm_compute. reflexivity. Qed.

(** Two distinct binary64 values are not equal. *)
Ltac distinct_floats H :=
  match type of H with
  | ?a = ?b =>
      apply (f_equal (fun x => x =? a)) in H; vm_compute in H; discriminate H
  end.

(** C7 as stated fails: for [prob_charge_off = 0.6] and
    [prob_attrition = 0.5] the message does not contain the sum. *)
Lemma competing_risk_message_omits_sum :
  fields_in_range 1 0.6 0.5 5000 1000 0.015 25 = true
  /\ ~ competing_risk_claim 1 0.6 0.5 5000 1000 0.015 25.
Proof.
  split; [vm_compute; reflexivity|]. intros [_ Hmsg].
  assert (E : PeriodData_init 1 0.6 0.5 5000 1000 0.015 25
              = Raise [ValueError
                         [Text "prob_charge_off ("; FloatRepr 0.6;
                          Text ") + prob_attrition ("; FloatRepr 0.5;
                          Text ") exceeds 1.0"]])
    by (vm_compute; reflexivity).
  destruct (Hmsg _ E) as (msg & Emsg & _ & _ & Hsum).
  injection Emsg as <-. unfold names_value in Hsum. cbn [In] in Hsum.
  destruct Hsum as [Hs|[Hs|[Hs|[Hs|[Hs|[]]]]]]; try discriminate;
    injection Hs as Hs; distinct_floats Hs.
Qed.

(** X14: in binary64, [PeriodData] is constructed exactly when every field
    is in its range and the float sum [prob_charge_off + prob_attrition] is
    [<= 1.0], and then holds the given values; when a field is out of range
    (NaN included) the error lists field errors only: the competing-risk
    validator has not run, whatever the sum. *)
Theorem period_data_validation period pco pa rb pu fcr fees :
  ((exists p, PeriodData_init period pco pa rb pu fcr fees = Ok p)
   <-> (fields_in_range period pco pa rb pu fcr fees = true
        /\ (pco + pa <=? 1) = true))
  /\ (forall p, PeriodData_init period pco pa rb pu fcr fees = Ok p ->
                p = mkPeriodData period pco pa rb pu fcr fees)
  /\ (fields_in_range period pco pa rb pu fcr fees = false ->
      exists e, PeriodData_init period pco pa rb pu fcr fees = Raise e
                /\ forall msg, ~ In (ValueError msg) e).
Proof.
  split; [|split].
  - split.
    + intros [p Hp].
      apply binary64_init_Ok in Hp as (Hin & Hgt & _).
      split; [exact Hin|].
      destruct (probabilities_in_range _ _ _ _ _ _ _ Hin)
        as [[Hpco0 Hpco1] [Hpa0 Hpa1]].
      apply (sum_not_above_1 pco pa); assumption.
    + intros [Hin Hs]. exists (mkPeriodData period pco pa rb pu fcr fees).
      rewrite binary64_init_in_range by exact Hin.
      unfold _competing_risks_valid. cbn [prob_charge_off prob_attrition].
      rewrite (leb_not_ltb _ _ Hs). reflexivity.
  - intros p Hp. apply binary64_init_Ok in Hp. tauto.
  - apply binary64_init_out_of_range.
Qed.

Lemma period_data_validation_witness :
  fields_in_range 1 1.5 0.03 5000 1000 0.015 25 = false
  /\ exists e, PeriodData_init 1 1.5 0.03 5000 1000 0.015 25 = Raise e
               /\ forall msg, ~ In (ValueError msg) e.
Proof.
  assert (H : fields_in_range 1 1.5 0.03 5000 1000 0.015 25 = false)
    by (vm_compute; reflexivity).
  split; [exact H|].
  exact (proj2 (proj2 (period_data_validation 1 1.5 0.03 5000 1000 0.015 25))
           H).
Defined.

(** ** Where rounding breaks the claims about the pipeline *)

Ltac validated_cohort :=
  unfold validated; split; [|split];
  [ repeat (apply Forall_cons; split); [.. | apply Forall_nil_2];
    vm_compute; reflexivity
  | vm_compute; reflexivity
  | vm_compute; reflexivity ].


(** C4 as stated fails: the discount rate [1e-17] is valid and positive,
    but [1.0 + 1e-17] is [1.0] in binary64, so the discount factor is [1.0]
    in both periods. *)
Lemma discount_factor_constant_after_rounding :
  validated tiny_rate_cohort
  /\ exists t,
       valuation_table tiny_rate_cohort = Ok t
       /\ ~ discount_strictly_decreasing tiny_rate_cohort t.
Proof.
  split; [validated_cohort|].
  eexists. split; [vm_compute; reflexivity|].
  intros (dfac & Hdfac & Hdec).
  unfold has_column in Hdfac. vm_compute in Hdfac. injection Hdfac as <-.
  assert (Hrate : (0 <? discount_rate (parameters tiny_rate_cohort)) = true)
    by (vm_compute; reflexivity).
  specialize (Hdec Hrate 0%nat 1%nat _ _ (le_n _) eq_refl eq_refl).
  vm_compute in Hdec. discriminate.
Qed.

